(** * SHEINVERSE Women monitor: the polling loop of [sheinverse_women.py]

    A shallow embedding of the monitor's fetch / change-detection / state
    update cycle, and the properties of its specification checked against it.

    Conventions of the embedding.
    - A Python [dict] keeps its keys unique and in insertion order; the
      [seen_products] dict is an association list in that order, because the
      loop that walks it reads the clock as it goes.  [restock_alerted] is
      only ever looked up and assigned by key, so it is a [gmap].
    - [time.time()] is an oracle [clock : nat -> Z]: the n-th call of the
      process returns [clock n]; the world carries the number of calls made.
      The readings are only stored, never computed with.
    - The network is an oracle too: for one cycle, [fetch_page p] is either
      the decoded page or [None] when [requests.get], [raise_for_status] or
      [r.json()] raises.
    - A call that raises returns [None]; [print] is not modelled.
    - The loop's observable actions are recorded as a list of [Effect]s:
      the texts handed to [send_telegram_message], the states handed to
      [save_state], and the [time.sleep] calls. *)

From Stdlib Require Import ZArith String Ascii List Sorted Lia.
From stdpp Require Import gmap strings list pretty.
Import ListNotations.

Local Open Scope Z_scope.
Local Open Scope string_scope.

(** ** Configuration *)

Definition POLL_INTERVAL_SEC : Z := 10.

(** ** Catalog payloads *)

(** A field read with [.get] and then used as a string: it may be absent,
    hold a string, or hold a JSON value of another kind ([null], a number, a
    list, an object), which has no string methods. *)
Inductive Field :=
| Absent
| Str (s : string)
| NotStr.

(** A product object of the listing, narrowed to the fields the monitor
    reads.  [code] is read with [.get] and passed to [str], so it is the
    resulting string, or absent; [url] is read with [.get] and asked
    [.startswith]; [price] is [prod["price"]["displayformattedValue"]], read
    by subscript: [None] stands for a payload on which that subscript
    raises. *)
Record Product := mkProduct {
  code : option string;
  price : option string;
  url : Field
}.

(** The [pagination] object of a page; the two counts are taken to be
    integers when present, so that [int(...)] returns them. *)
Record Pagination := mkPagination {
  totalResults : option Z;
  totalPages : option Z
}.

(** One decoded page: [first.get("products", [])] and
    [first.get("pagination", {})]. *)
Record Page := mkPage {
  products : option (list Product);
  pagination : option Pagination
}.

(** ** Persisted and in-memory state *)

Record Info := mkInfo {
  first_seen : Z;
  last_seen : Z;
  missing_since : option Z
}.

Record State := mkState {
  seen_products : list (string * Info);
  restock_alerted : gmap string bool;
  last_total_results : Z
}.

Record World := mkWorld {
  mem : State;
  ticks : nat
}.

Inductive Effect :=
| Send (text : string)
| Save (st : State)
| Sleep (secs : Z).

Inductive Status := Running | Crashed.

Record Step := mkStep {
  effects : list Effect;
  world : World;
  status : Status
}.

(** ** Dictionaries in insertion order *)

Fixpoint dict_get (k : string) (d : list (string * Info)) : option Info :=
  match d with
  | [] => None
  | (k', v) :: d' => if decide (k = k') then Some v else dict_get k d'
  end.

(** [d[k] = v]: overwrite in place, or append a new key at the end. *)
Fixpoint dict_set (k : string) (v : Info) (d : list (string * Info))
  : list (string * Info) :=
  match d with
  | [] => [(k, v)]
  | (k', v') :: d' =>
      if decide (k = k') then (k, v) :: d' else (k', v') :: dict_set k v d'
  end.

Definition keys (d : list (string * Info)) : list string := map fst d.

(** Python truthiness of [restock_alerted.get(key)]. *)
Definition truthy (o : option bool) : bool :=
  match o with
  | Some b => b
  | None => false
  end.

(** ** [load_state] *)

Definition empty_state : State :=
  {| seen_products := []; restock_alerted := ∅; last_total_results := 0 |}.

(** [file] is the decoded state file; [None] when it does not exist or cannot
    be read. *)
Definition load_state (file : option State) : State :=
  match file with
  | Some st => st
  | None => empty_state
  end.

(** ** Messages *)

Definition tab : string := String "009"%char EmptyString.
Definition newline : string := String "010"%char EmptyString.

Definition extract_product_key (prod : Product) : string :=
  match code prod with
  | Some c => c
  | None => ""
  end.

Definition startswith (pre s : string) : bool := String.prefix pre s.

Definition product_to_message (prod : Product) (event_type : string)
  : option string :=
  match price prod with
  | None => None
  | Some pr =>
      match
        match url prod with
        | Absent => Some ""
        | Str u => Some u
        | NotStr => None
        end
      with
      | None => None
      | Some url_path =>
          let link :=
            if startswith "/" url_path
            then "https://www.sheinindia.in" +:+ url_path
            else url_path in
          Some ("<b>" +:+ event_type +:+ "</b>" +:+ tab +:+
                link +:+ newline +:+
                "<b>••••••••••••••••••••••••••••••••••••" +:+ pr +:+ "</b>")
      end
  end.

Definition summary_alert_message (current_total new_count : Z) : string :=
  "<b>📊 STOCK UPDATE</b>" +:+ tab +:+
  "<b>Total: " +:+ pretty current_total +:+ " " +:+ tab +:+
  " (+" +:+ pretty new_count +:+ ")</b>".

(** ** [fetch_all_products] *)

(** The [for page in range(page, page + n)] loop with its [try]/[except]:
    a page that raises is reported and the loop is left with [break]. *)
Fixpoint fetch_more (fetch_page : nat -> option Page) (page n : nat)
    (acc : list Product) : list Product :=
  match n with
  | O => acc
  | S n' =>
      match fetch_page page with
      | None => acc
      | Some data =>
          fetch_more fetch_page (S page) n'
            (acc ++ match products data with Some ps => ps | None => [] end)
      end
  end.

Definition fetch_all_products (fetch_page : nat -> option Page)
  : option (list Product * Z) :=
  match fetch_page 0%nat with
  | None => None
  | Some first =>
      let prods := match products first with Some ps => ps | None => [] end in
      let pg :=
        match pagination first with
        | Some p => p
        | None => {| totalResults := None; totalPages := None |}
        end in
      let total_results :=
        match totalResults pg with Some n => n | None => 0 end in
      let total_pages :=
        match totalPages pg with Some n => n | None => 1 end in
      Some (fetch_more fetch_page 1 (Z.to_nat (total_pages - 1)) prods,
            total_results)
  end.

(** ** One iteration of [main_loop] *)

Record Scan := mkScan {
  sc_seen : list (string * Info);
  sc_codes : gset string;
  sc_ticks : nat;
  sc_sent : list string
}.

Section Monitor.

Variable clock : nat -> Z.

(** The loop over [products]: collect [current_codes], register and announce
    the products never seen before.  The entry is stored before the message
    is built, so a product whose message cannot be built leaves its entry
    behind when the exception leaves the loop. *)
Fixpoint detect_new (prods : list Product) (s : Scan) : Scan * Status :=
  match prods with
  | [] => (s, Running)
  | prod :: rest =>
      let key := extract_product_key prod in
      if decide (key = "") then detect_new rest s
      else
        let codes := {[key]} ∪ sc_codes s in
        match dict_get key (sc_seen s) with
        | Some _ =>
            detect_new rest
              {| sc_seen := sc_seen s; sc_codes := codes;
                 sc_ticks := sc_ticks s; sc_sent := sc_sent s |}
        | None =>
            let t := sc_ticks s in
            let seen :=
              dict_set key
                {| first_seen := clock t; last_seen := clock (S t);
                   missing_since := None |}
                (sc_seen s) in
            match product_to_message prod "NEW" with
            | None =>
                ({| sc_seen := seen; sc_codes := codes;
                    sc_ticks := S (S t); sc_sent := sc_sent s |}, Crashed)
            | Some msg =>
                detect_new rest
                  {| sc_seen := seen; sc_codes := codes;
                     sc_ticks := S (S t); sc_sent := sc_sent s ++ [msg] |}
            end
        end
  end.

(** The loop over [list(seen_products.keys())].  Each [info] is mutated in
    place, so walking the keys and subscripting the dict is walking its
    entries in order. *)
Fixpoint update_seen (codes : gset string) (entries : list (string * Info))
    (ra : gmap string bool) (t : nat)
  : list (string * Info) * gmap string bool * nat :=
  match entries with
  | [] => ([], ra, t)
  | (key, info) :: rest =>
      if decide (key ∉ codes) then
        match missing_since info with
        | None =>
            let info' :=
              {| first_seen := first_seen info; last_seen := last_seen info;
                 missing_since := Some (clock t) |} in
            let '(rest', ra', t') := update_seen codes rest ra (S t) in
            ((key, info') :: rest', ra', t')
        | Some _ =>
            let '(rest', ra', t') := update_seen codes rest ra t in
            ((key, info) :: rest', ra', t')
        end
      else
        let ra1 :=
          match missing_since info with
          | Some _ =>
              if truthy (ra !! key) then ra else <[key := true]> ra
          | None => ra
          end in
        let info' :=
          {| first_seen := first_seen info; last_seen := clock t;
             missing_since := missing_since info |} in
        let '(rest', ra', t') := update_seen codes rest ra1 (S t) in
        ((key, info') :: rest', ra', t')
  end.

(** The summary alert: sent, and the stored total replaced, only when the
    fetched total is greater. *)
Definition summary_alert (current_total_results last_total : Z)
  : list Effect * Z :=
  if decide (current_total_results > last_total) then
    let new_count := current_total_results - last_total in
    ([Send (summary_alert_message current_total_results new_count)],
     current_total_results)
  else ([], last_total).

(** The body of [while True] on a fetched listing. *)
Definition reconcile (prods : list Product) (current_total_results : Z)
    (w : World) : Step :=
  let st := mem w in
  let '(fx_total, total') :=
    summary_alert current_total_results (last_total_results st) in
  let '(sc, outcome) :=
    detect_new prods
      {| sc_seen := seen_products st; sc_codes := ∅;
         sc_ticks := ticks w; sc_sent := [] |} in
  match outcome with
  | Crashed =>
      {| effects := fx_total ++ map Send (sc_sent sc);
         world := {| mem := {| seen_products := sc_seen sc;
                               restock_alerted := restock_alerted st;
                               last_total_results := total' |};
                     ticks := sc_ticks sc |};
         status := Crashed |}
  | Running =>
      let '(seen', ra', t') :=
        update_seen (sc_codes sc) (sc_seen sc) (restock_alerted st)
          (sc_ticks sc) in
      let st' := {| seen_products := seen'; restock_alerted := ra';
                    last_total_results := total' |} in
      {| effects := fx_total ++ map Send (sc_sent sc) ++
                    [Save st'; Sleep POLL_INTERVAL_SEC];
         world := {| mem := st'; ticks := t' |};
         status := Running |}
  end.

Definition cycle (fetch_page : nat -> option Page) (w : World) : Step :=
  match fetch_all_products fetch_page with
  | None =>
      {| effects := [Sleep POLL_INTERVAL_SEC]; world := w; status := Running |}
  | Some (prods, current_total_results) =>
      reconcile prods current_total_results w
  end.

(** A finite prefix of [while True]: one network oracle per iteration.  An
    exception that leaves the loop body ends the process. *)
Fixpoint main_loop (nets : list (nat -> option Page)) (w : World) : Step :=
  match nets with
  | [] => {| effects := []; world := w; status := Running |}
  | net :: rest =>
      let s := cycle net w in
      match status s with
      | Crashed => s
      | Running =>
          let s' := main_loop rest (world s) in
          {| effects := effects s ++ effects s';
             world := world s'; status := status s' |}
      end
  end.

(** The worlds the loop goes through: before the first iteration and after
    each one. *)
Fixpoint history (nets : list (nat -> option Page)) (w : World)
  : list World :=
  match nets with
  | [] => [w]
  | net :: rest =>
      let s := cycle net w in
      match status s with
      | Crashed => [w; world s]
      | Running => w :: history rest (world s)
      end
  end.

End Monitor.

(** ** Observations on traces *)

Definition sent (fx : list Effect) : list string :=
  flat_map (fun e => match e with Send t => [t] | _ => [] end) fx.

Definition saved (fx : list Effect) : list State :=
  flat_map (fun e => match e with Save st => [st] | _ => [] end) fx.

Definition is_summary (text : string) : Prop :=
  ∃ a b, text = summary_alert_message a b.

Definition is_new_message (text : string) : Prop :=
  ∃ prod, product_to_message prod "NEW" = Some text.

Definition alerted (w : World) (key : string) : bool :=
  truthy (restock_alerted (mem w) !! key).

(** How often the restock branch marks [key] along a history: the steps on
    which its flag goes from unset to set. *)
Fixpoint restock_marks (key : string) (ws : list World) : nat :=
  match ws with
  | w :: ((w' :: _) as tl) =>
      ((if negb (alerted w key) && alerted w' key then 1 else 0)
       + restock_marks key tl)%nat
  | _ => 0%nat
  end.

(** The identities a listing shows: the non-empty extracted keys. *)
Definition listed (key : string) (prods : list Product) : Prop :=
  key ≠ "" ∧ ∃ prod, In prod prods ∧ extract_product_key prod = key.

(** The identities seen in some listing fetched along a run. *)
Definition observed (key : string) (nets : list (nat -> option Page)) : Prop :=
  ∃ net prods total,
    In net nets ∧ fetch_all_products net = Some (prods, total) ∧
    listed key prods.

(** What one page contributes to the merged listing. *)
Definition page_items (fetch_page : nat -> option Page) (p : nat)
  : list Product :=
  match fetch_page p with
  | Some data => match products data with Some ps => ps | None => [] end
  | None => []
  end.

(** [int(pagination.get("totalPages", 1))] and
    [int(pagination.get("totalResults", 0))] of the first page. *)
Definition declared_pages (first : Page) : Z :=
  match pagination first with
  | Some pg => match totalPages pg with Some n => n | None => 1 end
  | None => 1
  end.

Definition declared_total (first : Page) : Z :=
  match pagination first with
  | Some pg => match totalResults pg with Some n => n | None => 0 end
  | None => 0
  end.

(** The scan state at the top of the loop over the products. *)
Definition scan_start (w : World) : Scan :=
  {| sc_seen := seen_products (mem w); sc_codes := ∅;
     sc_ticks := ticks w; sc_sent := [] |}.

(** ** Sample inputs *)

Definition prod_A : Product :=
  {| code := Some "A"; price := Some "Rs.499"; url := Str "/p/A" |}.

Definition prod_B : Product :=
  {| code := Some "B"; price := Some "Rs.799"; url := Str "/p/B" |}.

(** A product whose [url] is [null]. *)
Definition prod_null_url : Product :=
  {| code := Some "D"; price := Some "Rs.999"; url := NotStr |}.

Definition prod_unpriced : Product :=
  {| code := Some "C"; price := None; url := Str "/p/C" |}.

(** A listing of a single page. *)
Definition one_page (prods : list Product) (total : Z) : nat -> option Page :=
  fun p =>
    match p with
    | O => Some {| products := Some prods;
                   pagination := Some {| totalResults := Some total;
                                         totalPages := Some 1 |} |}
    | _ => None
    end.

(** A listing of three pages whose last page cannot be fetched. *)
Definition third_page_down : nat -> option Page :=
  fun p =>
    match p with
    | 0%nat => Some {| products := Some [prod_A];
                       pagination := Some {| totalResults := Some 3;
                                             totalPages := Some 3 |} |}
    | 1%nat => Some {| products := Some [prod_B]; pagination := None |}
    | _ => None
    end.

(** A network that is down. *)
Definition offline : nat -> option Page := fun _ => None.

(** A clock that advances by one unit per reading. *)
Definition ticking : nat -> Z := Z.of_nat.

Definition fresh_world : World := {| mem := load_state None; ticks := 0 |}.

(** "A" was listed once, then went missing; no restock flag yet. *)
Definition world_A_missing : World :=
  {| mem := {| seen_products :=
                 [("A", {| first_seen := 1; last_seen := 1;
                           missing_since := Some 2 |})];
               restock_alerted := ∅;
               last_total_results := 5 |};
     ticks := 7 |}.

(** The same, with the restock flag already set. *)
Definition world_A_alerted : World :=
  {| mem := {| seen_products :=
                 [("A", {| first_seen := 1; last_seen := 1;
                           missing_since := Some 2 |})];
               restock_alerted := {["A" := true]};
               last_total_results := 5 |};
     ticks := 7 |}.

(** ** Persistence *)

(** The state file after a trace, every [save_state] having written its
    argument and the file decoding to what was written. *)
Definition disk_after (file : option State) (fx : list Effect)
  : option State :=
  fold_left (fun f e => match e with Save st => Some st | _ => f end) fx file.

(** Whether the fetch of an iteration succeeds. *)
Definition fetch_ok (net : nat -> option Page) : bool :=
  match fetch_all_products net with
  | Some _ => true
  | None => false
  end.

(** An entry whose timestamps are readings of the clock taken before the
    [t]-th one: [first_seen] first, [last_seen] and [missing_since] later. *)
Definition timely (clock : nat -> Z) (t : nat) (info : Info) : Prop :=
  ∃ i j : nat,
    (i < j < t)%nat ∧
    first_seen info = clock i ∧
    last_seen info = clock j ∧
    ∀ m, missing_since info = Some m →
         ∃ l : nat, (i < l < t)%nat ∧ m = clock l.

(** A listing of two pages. *)
Definition two_pages : nat -> option Page :=
  fun p =>
    match p with
    | 0%nat => Some {| products := Some [prod_A];
                       pagination := Some {| totalResults := Some 2;
                                             totalPages := Some 2 |} |}
    | 1%nat => Some {| products := Some [prod_B]; pagination := None |}
    | _ => None
    end.

(** The same listing while a third page happens to be reachable. *)
Definition two_pages_and_more : nat -> option Page :=
  fun p =>
    match p with
    | 2%nat => Some {| products := Some [prod_unpriced]; pagination := None |}
    | _ => two_pages p
    end.

(** The characters of a decimal numeral: the digits and the minus sign. *)
Definition numeral_char (c : ascii) : bool :=
  match c with
  | "0" | "1" | "2" | "3" | "4" | "5" | "6" | "7" | "8" | "9" | "-" => true
  | _ => false
  end%char.

Fixpoint numeral (s : string) : bool :=
  match s with
  | EmptyString => true
  | String c r => numeral_char c && numeral r
  end.

(** The totals declared by the listings a run fetches, in order. *)
Definition fetched_totals (nets : list (nat -> option Page)) : list Z :=
  flat_map (fun net => match fetch_all_products net with
                       | Some (_, total) => [total]
                       | None => []
                       end) nets.

(** * Properties *)

(** ** Dictionaries *)

Lemma dict_get_set (k k' : string) (v : Info) (d : list (string * Info)) :
  dict_get k' (dict_set k v d) = if decide (k' = k) then Some v else dict_get k' d.
Proof.
  induction d as [|[k0 v0] d IH]; simpl.
  - repeat case_decide; congruence.
  - destruct (decide (k = k0)) as [->|Hne]; simpl.
    + repeat case_decide; congruence.
    + rewrite IH. repeat case_decide; congruence.
Qed.

Lemma dict_get_keys (k : string) (d : list (string * Info)) :
  In k (keys d) ↔ is_Some (dict_get k d).
Proof.
  induction d as [|[k0 v0] d IH]; simpl.
  - split; [tauto | intros [x Hx]; discriminate].
  - case_decide as Hk.
    + subst. split; eauto.
    + rewrite <- IH. split; [intros [?|?]; congruence || assumption | tauto].
Qed.

Lemma dict_get_None_keys (k : string) (d : list (string * Info)) :
  dict_get k d = None ↔ ¬ In k (keys d).
Proof.
  rewrite dict_get_keys. split.
  - intros H [x Hx]. congruence.
  - intros H. destruct (dict_get k d) eqn:E; [exfalso; eauto | reflexivity].
Qed.

(** ** Message texts *)

Lemma new_message_not_summary (text : string) :
  is_new_message text → ¬ is_summary text.
Proof.
  intros [prod Hp] [a [b Hs]]. subst text.
  unfold product_to_message in Hp.
  destruct (price prod) as [pr|]; [|discriminate].
  destruct (url prod) as [|u|]; [| |discriminate];
    injection Hp as Hp; unfold summary_alert_message in Hp;
    simpl in Hp; discriminate Hp.
Qed.

Lemma sent_app (fx1 fx2 : list Effect) : sent (fx1 ++ fx2) = (sent fx1 ++ sent fx2)%list.
Proof. unfold sent. apply flat_map_app. Qed.

Lemma sent_map_Send (l : list string) : sent (map Send l) = l.
Proof. induction l as [|x l IH]; simpl; [reflexivity | now f_equal]. Qed.

(** ** The listing *)

Lemma listed_nil (k : string) : ¬ listed k [].
Proof. intros [_ [p [[] _]]]. Qed.

Lemma listed_cons (k : string) (p : Product) (rest : list Product) :
  listed k (p :: rest) ↔
  (extract_product_key p = k ∧ k ≠ "") ∨ listed k rest.
Proof.
  unfold listed. split.
  - intros [Hk [q [[->|Hin] Hq]]]; [left; auto | right; eauto].
  - intros [[Hp Hk]|[Hk [q [Hin Hq]]]]; split; auto.
    + exists p. split; [left; reflexivity | assumption].
    + exists q. split; [right; assumption | assumption].
Qed.

(** ** The loop over the fetched products *)

Section DetectNew.

Variable clock : nat -> Z.

Ltac detect_cases IH :=
  simpl; intros;
  repeat match goal with
  | |- context [decide (extract_product_key ?p = "")] =>
      destruct (decide (extract_product_key p = ""))
  | |- context [dict_get ?k ?d] =>
      let E := fresh "Eget" in destruct (dict_get k d) eqn:E
  | |- context [product_to_message ?p ?e] =>
      let E := fresh "Emsg" in destruct (product_to_message p e) eqn:E
  end.

Lemma detect_new_ticks (prods : list Product) (s : Scan) :
  (sc_ticks s ≤ sc_ticks (fst (detect_new clock prods s)))%nat.
Proof.
  revert s. induction prods as [|p rest IH]; detect_cases IH; simpl; auto;
    try (etransitivity; [|apply IH]; simpl; lia).
Qed.

Lemma detect_new_keeps (prods : list Product) (s : Scan) (k : string)
    (info : Info) :
  dict_get k (sc_seen s) = Some info →
  dict_get k (sc_seen (fst (detect_new clock prods s))) = Some info.
Proof.
  revert s. induction prods as [|p rest IH]; simpl; intros s Hget; [exact Hget|].
  destruct (decide (extract_product_key p = "")) as [He|He]; [now apply IH|].
  destruct (dict_get (extract_product_key p) (sc_seen s)) eqn:Eget.
  { now apply IH. }
  assert (Hv : ∀ v, dict_get k (dict_set (extract_product_key p) v (sc_seen s))
                    = Some info).
  { intros v. rewrite dict_get_set. case_decide; congruence. }
  destruct (product_to_message p "NEW") eqn:Emsg; simpl.
  - apply IH. simpl. apply Hv.
  - apply Hv.
Qed.

Lemma detect_new_keys_sound (prods : list Product) (s : Scan) (k : string) :
  In k (keys (sc_seen (fst (detect_new clock prods s)))) →
  In k (keys (sc_seen s)) ∨ listed k prods.
Proof.
  revert s. induction prods as [|p rest IH]; simpl; intros s; [tauto|].
  rewrite listed_cons.
  destruct (decide (extract_product_key p = "")) as [He|He].
  { intros H. apply IH in H. tauto. }
  destruct (dict_get (extract_product_key p) (sc_seen s)) eqn:Eget.
  { intros H. apply IH in H. simpl in H. tauto. }
  assert (Hset : ∀ v, In k (keys (dict_set (extract_product_key p) v (sc_seen s))) →
                 In k (keys (sc_seen s)) ∨ extract_product_key p = k ∧ k ≠ "").
  { intros v H. apply dict_get_keys in H. rewrite dict_get_set in H.
    case_decide; [subst; right; auto | left; now apply dict_get_keys]. }
  destruct (product_to_message p "NEW") eqn:Emsg; simpl.
  - intros H. apply IH in H. simpl in H. destruct H as [H|H]; [|tauto].
    apply Hset in H. tauto.
  - intros H. apply Hset in H. tauto.
Qed.

Lemma detect_new_keys_complete (prods : list Product) (s : Scan) (k : string) :
  snd (detect_new clock prods s) = Running →
  listed k prods →
  In k (keys (sc_seen (fst (detect_new clock prods s)))).
Proof.
  revert s. induction prods as [|p rest IH]; simpl; intros s Hrun Hl.
  { now apply listed_nil in Hl. }
  apply listed_cons in Hl.
  assert (Hkeep : ∀ s', is_Some (dict_get k (sc_seen s')) →
            In k (keys (sc_seen (fst (detect_new clock rest s'))))).
  { intros s' [v Hv]. apply dict_get_keys. exists v.
    now apply detect_new_keeps. }
  destruct (decide (extract_product_key p = "")) as [He|He].
  { destruct Hl as [[H1 H2]|Hl]; [congruence | now apply IH]. }
  destruct (dict_get (extract_product_key p) (sc_seen s)) eqn:Eget.
  { destruct Hl as [[H1 H2]|Hl]; [|now apply IH].
    apply Hkeep. simpl. subst k. eauto. }
  destruct (product_to_message p "NEW") eqn:Emsg; [|discriminate].
  destruct Hl as [[H1 H2]|Hl]; [|now apply IH].
  apply Hkeep. simpl. rewrite dict_get_set. subst k.
  case_decide; [eauto | congruence].
Qed.

Lemma detect_new_codes (prods : list Product) (s : Scan) (k : string) :
  snd (detect_new clock prods s) = Running →
  k ∈ sc_codes (fst (detect_new clock prods s)) ↔
  k ∈ sc_codes s ∨ listed k prods.
Proof.
  revert s. induction prods as [|p rest IH]; simpl; intros s Hrun.
  { pose proof (listed_nil k). tauto. }
  rewrite listed_cons.
  destruct (decide (extract_product_key p = "")) as [He|He].
  { rewrite IH by assumption. split; [tauto|].
    intros [?|[[? ?]|?]]; [tauto | congruence | tauto]. }
  destruct (dict_get (extract_product_key p) (sc_seen s)) eqn:Eget.
  { rewrite IH by assumption. simpl. rewrite elem_of_union, elem_of_singleton.
    split; [intros [[->|?]|?]; tauto | intros [?|[[? ?]|?]]; auto]. }
  destruct (product_to_message p "NEW") eqn:Emsg; [|discriminate].
  rewrite IH by assumption. simpl. rewrite elem_of_union, elem_of_singleton.
  split; [intros [[->|?]|?]; tauto | intros [?|[[? ?]|?]]; auto].
Qed.

Lemma detect_new_fresh_entries (prods : list Product) (s : Scan) (k : string)
    (info : Info) :
  dict_get k (sc_seen s) = None →
  dict_get k (sc_seen (fst (detect_new clock prods s))) = Some info →
  ∃ i : nat,
    (sc_ticks s ≤ i)%nat ∧
    (S i < sc_ticks (fst (detect_new clock prods s)))%nat ∧
    info = {| first_seen := clock i; last_seen := clock (S i);
              missing_since := None |}.
Proof.
  revert s. induction prods as [|p rest IH]; simpl; intros s Hnone Hget.
  { congruence. }
  destruct (decide (extract_product_key p = "")) as [He|He]; [now apply IH|].
  destruct (dict_get (extract_product_key p) (sc_seen s)) eqn:Eget.
  { apply (IH (mkScan _ _ _ _) Hnone Hget). }
  set (v := {| first_seen := clock (sc_ticks s);
               last_seen := clock (S (sc_ticks s)); missing_since := None |}) in *.
  destruct (decide (k = extract_product_key p)) as [Hk|Hk].
  - exists (sc_ticks s). split; [lia|].
    assert (Hv : dict_get k (dict_set (extract_product_key p) v (sc_seen s)) = Some v).
    { rewrite dict_get_set. case_decide; congruence. }
    destruct (product_to_message p "NEW") eqn:Emsg; simpl in *.
    + match type of Hget with
      | dict_get _ (sc_seen (fst (detect_new _ _ ?s'))) = _ =>
          pose proof (detect_new_ticks rest s') as Ht;
          pose proof (detect_new_keeps rest s' k v Hv) as Hk'
      end.
      simpl in Ht. split; [lia|].
      rewrite Hk' in Hget. injection Hget as <-. reflexivity.
    + split; [lia|]. rewrite Hv in Hget. injection Hget as <-. reflexivity.
  - assert (Hv : ∀ v, dict_get k (dict_set (extract_product_key p) v (sc_seen s)) = None).
    { intros v'. rewrite dict_get_set. case_decide; congruence. }
    destruct (product_to_message p "NEW") eqn:Emsg; simpl in *.
    + match type of Hget with
      | context [detect_new _ _ ?s'] =>
          destruct (IH s' (Hv v) Hget) as [i [H1 [H2 H3]]]
      end.
      simpl in H1.
      exists i. repeat split; [lia | exact H2 | exact H3].
    + rewrite Hv in Hget. discriminate.
Qed.

Lemma detect_new_sent_any (prods : list Product) (s : Scan) :
  ∃ msgs : list string,
    sc_sent (fst (detect_new clock prods s)) = (sc_sent s ++ msgs)%list ∧
    Forall is_new_message msgs.
Proof.
  revert s. induction prods as [|p rest IH]; simpl; intros s.
  { exists []. split; [now rewrite app_nil_r | constructor]. }
  destruct (decide (extract_product_key p = "")) as [He|He]; [apply IH|].
  destruct (dict_get (extract_product_key p) (sc_seen s)) eqn:Eget.
  { apply (IH (mkScan _ _ _ _)). }
  destruct (product_to_message p "NEW") as [msg|] eqn:Emsg; simpl.
  - destruct (IH (mkScan
        (dict_set (extract_product_key p)
           {| first_seen := clock (sc_ticks s);
              last_seen := clock (S (sc_ticks s)); missing_since := None |}
           (sc_seen s))
        ({[extract_product_key p]} ∪ sc_codes s) (S (S (sc_ticks s)))
        (sc_sent s ++ [msg])%list)) as [msgs [H1 H2]].
    exists (msg :: msgs). split.
    + rewrite H1. simpl. now rewrite <- app_assoc.
    + constructor; [exists p; exact Emsg | exact H2].
  - exists []. split; [now rewrite app_nil_r | constructor].
Qed.

End DetectNew.

Section Announcements.

Variable clock : nat -> Z.

Lemma detect_new_announces (prods : list Product) (s : Scan) :
  snd (detect_new clock prods s) = Running →
  ∃ (L : list Product) (msgs : list string),
    sc_sent (fst (detect_new clock prods s)) = (sc_sent s ++ msgs)%list ∧
    Forall2 (λ p m, product_to_message p "NEW" = Some m) L msgs ∧
    sublist L prods ∧
    NoDup (map extract_product_key L) ∧
    ∀ k, In k (map extract_product_key L) ↔
         listed k prods ∧ dict_get k (sc_seen s) = None.
Proof.
  revert s. induction prods as [|p rest IH]; simpl; intros s Hrun.
  { exists [], []. rewrite app_nil_r.
    split; [reflexivity|]. split; [constructor|]. split; [constructor|].
    split; [constructor|]. intros k. simpl. split; [tauto|].
    intros [Hl _]. now apply listed_nil in Hl. }
  destruct (decide (extract_product_key p = "")) as [He|He].
  { destruct (IH s Hrun) as (L & msgs & H1 & H2 & H3 & H4 & H5).
    exists L, msgs.
    split; [exact H1|]. split; [exact H2|].
    split; [now apply sublist_cons|]. split; [exact H4|].
    intros k. rewrite H5, listed_cons. split; [tauto|].
    intros [[[Hp Hk]|Hl] Hd]; [congruence | tauto]. }
  destruct (dict_get (extract_product_key p) (sc_seen s)) eqn:Eget.
  { match type of Hrun with
    | context [detect_new _ _ ?s'] =>
        destruct (IH s' Hrun) as (L & msgs & H1 & H2 & H3 & H4 & H5)
    end.
    simpl in H1, H5. exists L, msgs.
    split; [exact H1|]. split; [exact H2|].
    split; [now apply sublist_cons|]. split; [exact H4|].
    intros k. rewrite H5, listed_cons. split; [tauto|].
    intros [[[Hp Hk]|Hl] Hd]; [congruence | tauto]. }
  destruct (product_to_message p "NEW") as [msg|] eqn:Emsg; [|discriminate].
  match type of Hrun with
  | context [detect_new _ _ ?s'] =>
      destruct (IH s' Hrun) as (L & msgs & H1 & H2 & H3 & H4 & H5)
  end.
  simpl in H1, H5.
  exists (p :: L), (msg :: msgs). split; [|split; [|split; [|split]]].
  - rewrite H1. now rewrite <- app_assoc.
  - now constructor.
  - now apply sublist_skip.
  - simpl. constructor; [|exact H4].
    rewrite list_elem_of_In. intros Hin. apply H5 in Hin.
    destruct Hin as [_ Hin]. rewrite dict_get_set in Hin.
    case_decide; congruence.
  - intros k. simpl. rewrite listed_cons, H5, dict_get_set. split.
    + intros [<-|[Hl Hd]]; [tauto|].
      case_decide; [discriminate | tauto].
    + intros [[[Hk _]|Hl] Hd]; [now left|].
      destruct (decide (k = extract_product_key p)); [now left | tauto].
Qed.

(** ** The loop over the tracked identities *)

Lemma update_seen_keys (codes : gset string) (entries : list (string * Info))
    (ra : gmap string bool) (t : nat) :
  keys (fst (fst (update_seen clock codes entries ra t))) = keys entries.
Proof.
  revert ra t. induction entries as [|[k info] rest IH]; simpl; intros ra t.
  { reflexivity. }
  destruct (decide (k ∉ codes)); [destruct (missing_since info)|];
    match goal with
    | |- context [update_seen clock codes rest ?r ?n] =>
        specialize (IH r n);
        destruct (update_seen clock codes rest r n) as [[rest' ra'] t']
    end; simpl in *; now f_equal.
Qed.

Lemma update_seen_ticks (codes : gset string) (entries : list (string * Info))
    (ra : gmap string bool) (t : nat) :
  (t ≤ snd (update_seen clock codes entries ra t))%nat.
Proof.
  revert ra t. induction entries as [|[k info] rest IH]; simpl; intros ra t.
  { lia. }
  destruct (decide (k ∉ codes)); [destruct (missing_since info)|];
    match goal with
    | |- context [update_seen clock codes rest ?r ?n] =>
        specialize (IH r n);
        destruct (update_seen clock codes rest r n) as [[rest' ra'] t']
    end; simpl in *; lia.
Qed.

Lemma update_seen_alerted (codes : gset string) (entries : list (string * Info))
    (ra : gmap string bool) (t : nat) (k : string) :
  truthy (ra !! k) = true →
  truthy (snd (fst (update_seen clock codes entries ra t)) !! k) = true.
Proof.
  revert ra t. induction entries as [|[k0 info] rest IH]; simpl; intros ra t Hk.
  { exact Hk. }
  destruct (decide (k0 ∉ codes)); [destruct (missing_since info)|];
    match goal with
    | |- context [update_seen clock codes rest ?r ?n] =>
        specialize (IH r n);
        destruct (update_seen clock codes rest r n) as [[rest' ra'] t']
    end; simpl in *; apply IH; auto.
  destruct (missing_since info); [|exact Hk].
  destruct (truthy (ra !! k0)) eqn:E0; [exact Hk|].
  destruct (decide (k0 = k)) as [->|Hne].
  - now rewrite lookup_insert_eq.
  - now rewrite lookup_insert_ne.
Qed.

Lemma update_seen_get (codes : gset string) (entries : list (string * Info))
    (ra : gmap string bool) (t : nat) (k : string) (info : Info) :
  dict_get k entries = Some info →
  ∃ info',
    dict_get k (fst (fst (update_seen clock codes entries ra t))) = Some info' ∧
    first_seen info' = first_seen info ∧
    (k ∈ codes →
       missing_since info' = missing_since info ∧
       ∃ j, (t ≤ j)%nat ∧ last_seen info' = clock j) ∧
    (k ∉ codes →
       last_seen info' = last_seen info ∧
       is_Some (missing_since info') ∧
       (is_Some (missing_since info) →
        missing_since info' = missing_since info)).
Proof.
  revert ra t. induction entries as [|[k0 info0] rest IH]; simpl; intros ra t Hk.
  { discriminate. }
  destruct (decide (k = k0)) as [->|Hne].
  - injection Hk as ->.
    destruct (decide (k0 ∉ codes)) as [Hout|Hin];
      [destruct (missing_since info) as [m|] eqn:Em|];
      match goal with
      | |- context [update_seen clock codes rest ?r ?n] =>
          destruct (update_seen clock codes rest r n) as [[rest' ra'] t']
      end; simpl; (case_decide; [|congruence]);
      eexists; (split; [reflexivity|]); simpl.
    + rewrite Em. repeat split; eauto; tauto.
    + repeat split; eauto; try tauto. intros [x Hx]. discriminate.
    + split; [reflexivity|]. split; [|intros Hn; exfalso; apply Hin, Hn].
      intros _. split; [reflexivity|]. exists t. split; [lia | reflexivity].
  - assert (Hstep : ∀ ra1 t1, (t ≤ t1)%nat → ∃ info',
        dict_get k (fst (fst (update_seen clock codes rest ra1 t1))) = Some info' ∧
        first_seen info' = first_seen info ∧
        (k ∈ codes → missing_since info' = missing_since info ∧
           ∃ j, (t ≤ j)%nat ∧ last_seen info' = clock j) ∧
        (k ∉ codes → last_seen info' = last_seen info ∧
           is_Some (missing_since info') ∧
           (is_Some (missing_since info) →
            missing_since info' = missing_since info))).
    { intros ra1 t1 Ht. destruct (IH ra1 t1 Hk) as (i' & H1 & H2 & H3 & H4).
      exists i'. repeat split; auto; try (apply H4; assumption).
      - now apply H3.
      - destruct (H3 H) as [_ [j [Hj Hl]]]. exists j. split; [lia | exact Hl]. }
    destruct (decide (k0 ∉ codes)); [destruct (missing_since info0)|];
      match goal with
      | |- context [update_seen clock codes rest ?r ?n] =>
          destruct (Hstep r n) as (i' & H1 & H2); [lia|];
          destruct (update_seen clock codes rest r n) as [[rest' ra'] t']
      end; simpl in *; (case_decide; [congruence|]); exists i'; auto.
Qed.

End Announcements.

(** ** One iteration *)

Section Cycle.

Variable clock : nat -> Z.

Lemma summary_alert_sent (total last : Z) :
  sent (fst (summary_alert total last)) =
  if decide (total > last)
  then [summary_alert_message total (total - last)] else [].
Proof. unfold summary_alert. case_decide; reflexivity. Qed.

Lemma summary_alert_total (total last : Z) :
  snd (summary_alert total last) = if decide (total > last) then total else last.
Proof. unfold summary_alert. case_decide; reflexivity. Qed.

(** [reconcile], with its intermediate results named. *)
Lemma reconcile_cases (prods : list Product) (total : Z) (w : World) :
  let st := mem w in
  let sa := summary_alert total (last_total_results st) in
  let r := detect_new clock prods (scan_start w) in
  let u := update_seen clock (sc_codes (fst r)) (sc_seen (fst r))
             (restock_alerted st) (sc_ticks (fst r)) in
  reconcile clock prods total w =
  match snd r with
  | Crashed =>
      {| effects := fst sa ++ map Send (sc_sent (fst r));
         world := {| mem := {| seen_products := sc_seen (fst r);
                               restock_alerted := restock_alerted st;
                               last_total_results := snd sa |};
                     ticks := sc_ticks (fst r) |};
         status := Crashed |}
  | Running =>
      {| effects := fst sa ++ map Send (sc_sent (fst r)) ++
                    [Save {| seen_products := fst (fst u);
                             restock_alerted := snd (fst u);
                             last_total_results := snd sa |};
                     Sleep POLL_INTERVAL_SEC];
         world := {| mem := {| seen_products := fst (fst u);
                               restock_alerted := snd (fst u);
                               last_total_results := snd sa |};
                     ticks := snd u |};
         status := Running |}
  end.
Proof.
  unfold reconcile, scan_start. simpl.
  destruct (summary_alert total (last_total_results (mem w))) as [fx t'].
  destruct (detect_new clock prods _) as [sc []]; simpl; [|reflexivity].
  destruct (update_seen clock _ _ _ _) as [[seen' ra'] t'']. reflexivity.
Qed.

Lemma reconcile_status (prods : list Product) (total : Z) (w : World) :
  status (reconcile clock prods total w) =
  snd (detect_new clock prods (scan_start w)).
Proof.
  rewrite reconcile_cases. simpl.
  destruct (snd (detect_new clock prods (scan_start w))); reflexivity.
Qed.

Lemma reconcile_total (prods : list Product) (total : Z) (w : World) :
  last_total_results (mem (world (reconcile clock prods total w))) =
  if decide (total > last_total_results (mem w))
  then total else last_total_results (mem w).
Proof.
  rewrite reconcile_cases. simpl. rewrite <- summary_alert_total.
  destruct (snd (detect_new clock prods (scan_start w))); reflexivity.
Qed.

Lemma reconcile_sent (prods : list Product) (total : Z) (w : World) :
  sent (effects (reconcile clock prods total w)) =
  ((if decide (total > last_total_results (mem w))
    then [summary_alert_message total (total - last_total_results (mem w))]
    else []) ++
   sc_sent (fst (detect_new clock prods (scan_start w))))%list.
Proof.
  rewrite reconcile_cases. simpl. rewrite <- summary_alert_sent.
  destruct (snd (detect_new clock prods (scan_start w))); simpl;
    repeat rewrite sent_app; rewrite sent_map_Send; simpl;
    rewrite ?app_nil_r; reflexivity.
Qed.

Lemma reconcile_new_messages (prods : list Product) (total : Z) (w : World) :
  Forall is_new_message (sc_sent (fst (detect_new clock prods (scan_start w)))).
Proof.
  destruct (detect_new_sent_any clock prods (scan_start w)) as [msgs [H1 H2]].
  rewrite H1. exact H2.
Qed.

Lemma reconcile_alerted (prods : list Product) (total : Z) (w : World)
    (k : string) :
  alerted w k = true → alerted (world (reconcile clock prods total w)) k = true.
Proof.
  unfold alerted. rewrite reconcile_cases. simpl.
  destruct (snd (detect_new clock prods (scan_start w))); simpl; [|auto].
  apply update_seen_alerted.
Qed.

Lemma reconcile_keys_keep (prods : list Product) (total : Z) (w : World)
    (k : string) :
  In k (keys (seen_products (mem w))) →
  In k (keys (seen_products (mem (world (reconcile clock prods total w))))).
Proof.
  intros Hk. apply dict_get_keys in Hk. destruct Hk as [info Hk].
  pose proof (detect_new_keeps clock prods (scan_start w) k info Hk) as Hd.
  assert (Hin : In k (keys (sc_seen (fst (detect_new clock prods (scan_start w)))))).
  { apply dict_get_keys. eauto. }
  rewrite reconcile_cases. simpl.
  destruct (snd (detect_new clock prods (scan_start w))); simpl; [|exact Hin].
  now rewrite update_seen_keys.
Qed.

Lemma reconcile_keys (prods : list Product) (total : Z) (w : World)
    (k : string) :
  status (reconcile clock prods total w) = Running →
  In k (keys (seen_products (mem (world (reconcile clock prods total w))))) ↔
  In k (keys (seen_products (mem w))) ∨ listed k prods.
Proof.
  rewrite reconcile_status. intros Hrun. rewrite reconcile_cases. simpl.
  rewrite Hrun. simpl. rewrite update_seen_keys. split.
  - apply detect_new_keys_sound.
  - intros [Hk|Hl].
    + apply dict_get_keys in Hk. destruct Hk as [info Hk].
      apply dict_get_keys. exists info.
      now apply (detect_new_keeps clock prods (scan_start w)).
    + now apply detect_new_keys_complete.
Qed.

Lemma cycle_fetched (net : nat -> option Page) (w : World)
    (prods : list Product) (total : Z) :
  fetch_all_products net = Some (prods, total) →
  cycle clock net w = reconcile clock prods total w.
Proof. intros H. unfold cycle. now rewrite H. Qed.

Lemma cycle_failed (net : nat -> option Page) (w : World) :
  fetch_all_products net = None →
  cycle clock net w =
  {| effects := [Sleep POLL_INTERVAL_SEC]; world := w; status := Running |}.
Proof. intros H. unfold cycle. now rewrite H. Qed.

Lemma cycle_total_mono (net : nat -> option Page) (w : World) :
  (last_total_results (mem w) ≤
   last_total_results (mem (world (cycle clock net w))))%Z.
Proof.
  unfold cycle. destruct (fetch_all_products net) as [[prods total]|]; simpl.
  - rewrite reconcile_total. case_decide; lia.
  - lia.
Qed.

Lemma cycle_alerted (net : nat -> option Page) (w : World) (k : string) :
  alerted w k = true → alerted (world (cycle clock net w)) k = true.
Proof.
  unfold cycle. destruct (fetch_all_products net) as [[prods total]|]; simpl.
  - apply reconcile_alerted.
  - auto.
Qed.

Lemma cycle_keys_keep (net : nat -> option Page) (w : World) (k : string) :
  In k (keys (seen_products (mem w))) →
  In k (keys (seen_products (mem (world (cycle clock net w))))).
Proof.
  unfold cycle. destruct (fetch_all_products net) as [[prods total]|]; simpl.
  - apply reconcile_keys_keep.
  - auto.
Qed.

Lemma cycle_sent_kinds (net : nat -> option Page) (w : World) (text : string) :
  In text (sent (effects (cycle clock net w))) →
  is_summary text ∨ is_new_message text.
Proof.
  unfold cycle. destruct (fetch_all_products net) as [[prods total]|]; simpl.
  - rewrite reconcile_sent. rewrite in_app_iff. intros [H|H].
    + left. case_decide; [|destruct H].
      destruct H as [<-|[]]. eexists _, _. reflexivity.
    + right. pose proof (reconcile_new_messages prods total w) as Hall.
      rewrite Forall_forall in Hall. apply Hall. now apply list_elem_of_In.
  - tauto.
Qed.

End Cycle.

(** ** Runs of the loop *)

Section Run.

Variable clock : nat -> Z.

Lemma history_head (nets : list (nat -> option Page)) (w : World) :
  ∃ tl, history clock nets w = w :: tl.
Proof.
  destruct nets as [|net rest]; simpl; [eauto|].
  destruct (status (cycle clock net w)); eauto.
Qed.

Lemma history_last (nets : list (nat -> option Page)) (w : World) :
  last (history clock nets w) = Some (world (main_loop clock nets w)).
Proof.
  revert w. induction nets as [|net rest IH]; simpl; intros w; [reflexivity|].
  destruct (status (cycle clock net w)) eqn:Es; simpl; [|reflexivity].
  destruct (history_head rest (world (cycle clock net w))) as [tl Htl].
  rewrite <- IH, Htl. reflexivity.
Qed.

(** A property that every iteration preserves holds all along the history. *)
Lemma history_preserved (P : World → Prop) :
  (∀ net w, P w → P (world (cycle clock net w))) →
  ∀ nets w, P w → Forall P (history clock nets w).
Proof.
  intros Hstep nets. induction nets as [|net rest IH]; simpl; intros w Hw.
  { repeat constructor; assumption. }
  destruct (status (cycle clock net w)).
  - constructor; [assumption|]. apply IH, Hstep, Hw.
  - repeat constructor; auto.
Qed.

Lemma history_total (nets : list (nat -> option Page)) (w : World) :
  Forall (λ w', (last_total_results (mem w) ≤ last_total_results (mem w'))%Z)
         (history clock nets w).
Proof.
  apply history_preserved; [|lia].
  intros net w0 H. pose proof (cycle_total_mono clock net w0). lia.
Qed.

Lemma history_alerted (nets : list (nat -> option Page)) (w : World)
    (k : string) :
  alerted w k = true →
  Forall (λ w', alerted w' k = true) (history clock nets w).
Proof.
  apply (history_preserved (λ w', alerted w' k = true)).
  intros net w0. apply cycle_alerted.
Qed.

Lemma history_keys (nets : list (nat -> option Page)) (w : World)
    (k : string) :
  In k (keys (seen_products (mem w))) →
  Forall (λ w', In k (keys (seen_products (mem w')))) (history clock nets w).
Proof.
  apply (history_preserved (λ w', In k (keys (seen_products (mem w'))))).
  intros net w0. apply cycle_keys_keep.
Qed.

Lemma marks_of_alerted (k : string) (ws : list World) :
  Forall (λ w', alerted w' k = true) ws → restock_marks k ws = 0%nat.
Proof.
  induction ws as [|w [|w' tl] IH]; intros Hall; simpl; try reflexivity.
  inversion Hall as [|? ? Hw Htl]; subst.
  rewrite Hw. simpl. now apply IH.
Qed.

Lemma restock_marks_step (k : string) (w w' : World) (tl : list World) :
  restock_marks k (w :: w' :: tl) =
  ((if negb (alerted w k) && alerted w' k then 1 else 0)
   + restock_marks k (w' :: tl))%nat.
Proof. reflexivity. Qed.

Lemma history_marks (nets : list (nat -> option Page)) (w : World)
    (k : string) :
  (restock_marks k (history clock nets w) ≤ 1)%nat.
Proof.
  revert w. induction nets as [|net rest IH]; simpl; intros w; [lia|].
  destruct (status (cycle clock net w)) eqn:Es.
  - destruct (history_head rest (world (cycle clock net w))) as [tl Htl].
    specialize (IH (world (cycle clock net w))).
    pose proof (history_alerted rest (world (cycle clock net w)) k) as Hal.
    rewrite Htl in *. rewrite restock_marks_step.
    destruct (alerted w k) eqn:Ew; [exact IH|].
    destruct (alerted (world (cycle clock net w)) k) eqn:Ew'; [|exact IH].
    rewrite (marks_of_alerted k _ (Hal eq_refl)). simpl. lia.
  - simpl. destruct (negb (alerted w k) && alerted (world (cycle clock net w)) k);
      lia.
Qed.

Lemma main_loop_sent_kinds (nets : list (nat -> option Page)) (w : World)
    (text : string) :
  In text (sent (effects (main_loop clock nets w))) →
  is_summary text ∨ is_new_message text.
Proof.
  revert w. induction nets as [|net rest IH]; simpl; intros w; [tauto|].
  destruct (status (cycle clock net w)); simpl.
  - rewrite sent_app, in_app_iff. intros [H|H].
    + now apply (cycle_sent_kinds clock net w).
    + now apply (IH (world (cycle clock net w))).
  - apply cycle_sent_kinds.
Qed.

Lemma observed_nil (k : string) : ¬ observed k [].
Proof. intros (net & prods & total & [] & _). Qed.

Lemma observed_cons (k : string) (net : nat -> option Page)
    (rest : list (nat -> option Page)) :
  observed k (net :: rest) ↔
  (∃ prods total, fetch_all_products net = Some (prods, total) ∧
                  listed k prods) ∨ observed k rest.
Proof.
  unfold observed. split.
  - intros (n & prods & total & [<-|Hin] & Hf & Hl); [left|right]; eauto 6.
  - intros [(prods & total & Hf & Hl)|(n & prods & total & Hin & Hf & Hl)].
    + exists net, prods, total. split; [now left | auto].
    + exists n, prods, total. split; [now right | auto].
Qed.

Lemma cycle_keys (net : nat -> option Page) (w : World) (k : string) :
  status (cycle clock net w) = Running →
  In k (keys (seen_products (mem (world (cycle clock net w))))) ↔
  In k (keys (seen_products (mem w))) ∨
  ∃ prods total, fetch_all_products net = Some (prods, total) ∧ listed k prods.
Proof.
  unfold cycle. destruct (fetch_all_products net) as [[prods total]|] eqn:Ef;
    simpl.
  - intros Hrun. rewrite (reconcile_keys clock prods total w k Hrun). split.
    + intros [?|?]; [now left | right; eauto].
    + intros [?|(ps & t & Heq & Hl)]; [now left|]. right. congruence.
  - intros _. split; [now left|]. intros [?|(ps & t & Heq & _)]; congruence.
Qed.

Lemma main_loop_keys (nets : list (nat -> option Page)) (w : World)
    (k : string) :
  status (main_loop clock nets w) = Running →
  In k (keys (seen_products (mem (world (main_loop clock nets w))))) ↔
  In k (keys (seen_products (mem w))) ∨ observed k nets.
Proof.
  revert w. induction nets as [|net rest IH]; simpl; intros w.
  { pose proof (observed_nil k). tauto. }
  destruct (status (cycle clock net w)) eqn:Es; simpl; [|congruence].
  intros Hrun. rewrite (IH _ Hrun), (cycle_keys net w k Es), observed_cons.
  tauto.
Qed.

End Run.

(** ** Fetching the pages *)

Lemma fetch_more_merged (net : nat -> option Page) (n page : nat)
    (acc : list Product) :
  ∃ m : nat,
    (m ≤ n)%nat ∧
    (∀ i, (i < m)%nat → is_Some (net (page + i)%nat)) ∧
    ((m < n)%nat → net (page + m)%nat = None) ∧
    fetch_more net page n acc =
    (acc ++ flat_map (page_items net) (seq page m))%list.
Proof.
  revert page acc. induction n as [|n IH]; simpl; intros page acc.
  { exists 0%nat. simpl. rewrite app_nil_r.
    split; [lia|]. split; [intros i Hi; lia|]. split; [lia | reflexivity]. }
  destruct (net page) as [data|] eqn:Ep.
  - destruct (IH (S page) (acc ++ match products data with
                                  | Some ps => ps | None => [] end)%list)
      as (m & Hm & Hall & Hstop & Heq).
    exists (S m). split; [lia|]. split; [|split].
    + intros [|i] Hi.
      * rewrite Nat.add_0_r, Ep. eauto.
      * replace (page + S i)%nat with (S page + i)%nat by lia.
        apply Hall. lia.
    + intros Hlt. replace (page + S m)%nat with (S page + m)%nat by lia.
      apply Hstop. lia.
    + rewrite Heq. simpl. unfold page_items at 2. rewrite Ep.
      now rewrite <- app_assoc.
  - exists 0%nat. simpl. rewrite app_nil_r, Nat.add_0_r.
    split; [lia|]. split; [intros i Hi; lia|]. split; [auto | reflexivity].
Qed.

(** ** The loop on sample listings *)

(** First start, one product listed, five results declared: the summary
    alert, then the NEW message. *)
Example first_listing_sent :
  sent (effects (cycle ticking (one_page [prod_A] 5) fresh_world)) =
  [summary_alert_message 5 5;
   "<b>NEW</b>" +:+ tab +:+ "https://www.sheinindia.in/p/A" +:+ newline +:+
   "<b>••••••••••••••••••••••••••••••••••••Rs.499</b>"].
Proof. vm_compute. reflexivity. Qed.

Example first_listing_state :
  seen_products (mem (world (cycle ticking (one_page [prod_A] 5) fresh_world))) =
  [("A", {| first_seen := 0; last_seen := 2; missing_since := None |})].
Proof. vm_compute. reflexivity. Qed.

(** A new product whose [url] is [null] has a readable price and still
    aborts the iteration: its entry is stored, nothing is sent or saved. *)
Example null_url_aborts :
  let s := cycle ticking (one_page [prod_null_url] 0) fresh_world in
  status s = Crashed ∧ effects s = [] ∧
  keys (seen_products (mem (world s))) = ["D"].
Proof. vm_compute. repeat split; reflexivity. Qed.

(** A tracked product that is no longer listed gets [missing_since]. *)
Example unlisted_gets_missing_since :
  seen_products
    (mem (world (main_loop ticking [one_page [prod_A] 5; one_page [] 5]
                           fresh_world))) =
  [("A", {| first_seen := 0; last_seen := 2; missing_since := Some 3 |})].
Proof. vm_compute. reflexivity. Qed.

(** The same listing twice: nothing is sent the second time. *)
Example same_listing_twice_silent :
  sent (effects (main_loop ticking [one_page [prod_A] 5; one_page [prod_A] 5]
                           fresh_world)) =
  sent (effects (cycle ticking (one_page [prod_A] 5) fresh_world)).
Proof. vm_compute. reflexivity. Qed.

(** * The claims *)

(** C1.  An identity tracked with [missing_since] set and no restock flag
    that is listed again should produce one restock notification and have its
    flag set.  On such a cycle the loop sets the flag but hands nothing to
    [send_telegram_message]: "A" is tracked as missing, the listing shows
    "A" again with an unchanged total, and the iteration sends no text at
    all while [restock_alerted["A"]] becomes [True]. *)
Theorem restock_flagged_but_not_sent :
  let s := cycle ticking (one_page [prod_A] 5) world_A_missing in
  fetch_all_products (one_page [prod_A] 5) = Some ([prod_A], 5) ∧
  status s = Running ∧
  sent (effects s) = [] ∧
  alerted world_A_missing "A" = false ∧
  alerted (world s) "A" = true.
Proof. vm_compute. repeat split; reflexivity. Qed.

(** C2 as stated fails: "A" is tracked with [missing_since = 2], it is listed
    again, and after the iteration its entry still carries
    [missing_since]. *)
Lemma missing_since_survives_reappearance :
  let s := cycle ticking (one_page [prod_A] 5) world_A_alerted in
  dict_get "A" (seen_products (mem world_A_alerted)) =
    Some {| first_seen := 1; last_seen := 1; missing_since := Some 2 |} ∧
  listed "A" [prod_A] ∧
  ∃ info, dict_get "A" (seen_products (mem (world s))) = Some info ∧
          missing_since info ≠ None.
Proof.
  split; [reflexivity|]. split.
  - split; [discriminate|]. exists prod_A. split; [now left | reflexivity].
  - eexists. split; [vm_compute; reflexivity | discriminate].
Qed.

(** C2, amended.  For every identity tracked with [missing_since] set that
    the fetched listing shows, the iteration keeps the entry and leaves
    [missing_since] at the value it had, whatever the restock flag is; the
    moment of the first sighting is kept too. *)
Theorem missing_since_kept_on_reappearance (clock : nat -> Z)
    (net : nat -> option Page) (w : World) (prods : list Product) (total : Z)
    (key : string) (info : Info) (t : Z) :
  fetch_all_products net = Some (prods, total) →
  dict_get key (seen_products (mem w)) = Some info →
  missing_since info = Some t →
  listed key prods →
  ∃ info',
    dict_get key (seen_products (mem (world (cycle clock net w)))) = Some info' ∧
    missing_since info' = Some t ∧
    first_seen info' = first_seen info.
Proof.
  intros Hf Hget Hm Hl. rewrite (cycle_fetched clock net w prods total Hf).
  pose proof (detect_new_keeps clock prods (scan_start w) key info Hget) as Hk.
  rewrite reconcile_cases. simpl.
  destruct (snd (detect_new clock prods (scan_start w))) eqn:Hrun; simpl.
  - assert (Hc : key ∈ sc_codes (fst (detect_new clock prods (scan_start w)))).
    { apply detect_new_codes; [exact Hrun | now right]. }
    destruct (update_seen_get clock
                (sc_codes (fst (detect_new clock prods (scan_start w))))
                _ (restock_alerted (mem w))
                (sc_ticks (fst (detect_new clock prods (scan_start w))))
                key info Hk) as (info' & H1 & H2 & H3 & _).
    exists info'. destruct (H3 Hc) as [H4 _].
    split; [exact H1|]. split; [congruence | exact H2].
  - exists info. auto.
Qed.

Lemma missing_since_kept_on_reappearance_witness :
  ∃ info',
    dict_get "A" (seen_products (mem (world
      (cycle ticking (one_page [prod_A] 5) world_A_alerted)))) = Some info' ∧
    missing_since info' = Some 2 ∧
    first_seen info' = 1.
Proof.
  apply (missing_since_kept_on_reappearance ticking (one_page [prod_A] 5)
           world_A_alerted [prod_A] 5 "A"
           {| first_seen := 1; last_seen := 1; missing_since := Some 2 |} 2).
  - reflexivity.
  - reflexivity.
  - reflexivity.
  - split; [discriminate|]. exists prod_A. split; [now left | reflexivity].
Defined.

(** C3 as stated fails: with 5 stored and 3 fetched, the stored total is
    still 5 after the iteration. *)
Lemma lower_total_not_stored :
  let w := {| mem := {| seen_products := []; restock_alerted := ∅;
                        last_total_results := 5 |}; ticks := 0 |} in
  fetch_all_products (one_page [] 3) = Some ([], 3) ∧
  (3 ≤ last_total_results (mem w))%Z ∧
  last_total_results (mem (world (cycle ticking (one_page [] 3) w))) ≠ 3.
Proof. vm_compute. split; [reflexivity|]. split; discriminate. Qed.

(** C3, amended.  On every iteration whose fetched total is equal to or
    lower than the stored [last_total_results], no summary alert is sent and
    the stored total is left as it was. *)
Theorem total_kept_when_not_greater (clock : nat -> Z)
    (net : nat -> option Page) (w : World) (prods : list Product) (total : Z) :
  fetch_all_products net = Some (prods, total) →
  (total ≤ last_total_results (mem w))%Z →
  (∀ text, In text (sent (effects (cycle clock net w))) → ¬ is_summary text) ∧
  last_total_results (mem (world (cycle clock net w))) =
  last_total_results (mem w).
Proof.
  intros Hf Hle. rewrite (cycle_fetched clock net w prods total Hf). split.
  - intros text. rewrite reconcile_sent. case_decide; [lia|]. simpl.
    intros Hin. apply new_message_not_summary.
    pose proof (reconcile_new_messages clock prods total w) as Hall.
    rewrite Forall_forall in Hall. apply Hall. now apply list_elem_of_In.
  - rewrite reconcile_total. case_decide; [lia | reflexivity].
Qed.

Lemma total_kept_when_not_greater_witness :
  (∀ text,
     In text (sent (effects (cycle ticking (one_page [prod_A] 3) world_A_missing))) →
     ¬ is_summary text) ∧
  last_total_results
    (mem (world (cycle ticking (one_page [prod_A] 3) world_A_missing))) =
  last_total_results (mem world_A_missing).
Proof.
  apply (total_kept_when_not_greater ticking (one_page [prod_A] 3)
           world_A_missing [prod_A] 3).
  - reflexivity.
  - vm_compute. discriminate.
Defined.

(** C4.  On every iteration that fetched a listing, a summary (stock update)
    alert is sent if and only if the fetched total is greater than the stored
    [last_total_results]; the alert that is sent is the one for the fetched
    total and the difference of the two totals, which is positive. *)
Theorem summary_alert_iff_total_grows (clock : nat -> Z)
    (net : nat -> option Page) (w : World) (prods : list Product) (total : Z) :
  fetch_all_products net = Some (prods, total) →
  ((∃ text, In text (sent (effects (cycle clock net w))) ∧ is_summary text) ↔
   (total > last_total_results (mem w))%Z) ∧
  (∀ text,
     In text (sent (effects (cycle clock net w))) → is_summary text →
     text = summary_alert_message total (total - last_total_results (mem w)) ∧
     (total - last_total_results (mem w) > 0)%Z).
Proof.
  intros Hf. rewrite (cycle_fetched clock net w prods total Hf).
  rewrite reconcile_sent.
  assert (Hnew : ∀ text,
    In text (sc_sent (fst (detect_new clock prods (scan_start w)))) →
    ¬ is_summary text).
  { intros text Hin. apply new_message_not_summary.
    pose proof (reconcile_new_messages clock prods total w) as Hall.
    rewrite Forall_forall in Hall. apply Hall. now apply list_elem_of_In. }
  case_decide as Hgt; simpl; split.
  - split; [intros _; exact Hgt|]. intros _. eexists. split; [now left|].
    eexists _, _. reflexivity.
  - intros text [<-|Hin] Hs; [split; [reflexivity | lia]|].
    exfalso. exact (Hnew text Hin Hs).
  - split; [|intros; contradiction].
    intros (text & Hin & Hs). exfalso. exact (Hnew text Hin Hs).
  - intros text Hin Hs. exfalso. exact (Hnew text Hin Hs).
Qed.

Lemma summary_alert_iff_total_grows_witness :
  ((∃ text, In text (sent (effects (cycle ticking (one_page [prod_A] 8)
                                            world_A_missing))) ∧
            is_summary text) ↔
   (8 > last_total_results (mem world_A_missing))%Z) ∧
  (∀ text,
     In text (sent (effects (cycle ticking (one_page [prod_A] 8)
                                   world_A_missing))) →
     is_summary text →
     text = summary_alert_message 8 (8 - last_total_results (mem world_A_missing)) ∧
     (8 - last_total_results (mem world_A_missing) > 0)%Z).
Proof.
  apply (summary_alert_iff_total_grows ticking (one_page [prod_A] 8)
           world_A_missing [prod_A] 8).
  reflexivity.
Defined.

(** C5 as stated fails twice over.  With a clock that advances, a product
    seen for the first time ends the iteration with [last_seen] later than
    [first_seen]; and a new product whose price cannot be read is stored but
    never announced, the exception ending the loop. *)
Lemma new_item_timestamps_differ :
  let s := cycle ticking (one_page [prod_A] 0) fresh_world in
  let s' := cycle ticking (one_page [prod_unpriced] 0) fresh_world in
  (listed "A" [prod_A] ∧
   dict_get "A" (seen_products (mem fresh_world)) = None ∧
   status s = Running ∧
   ∃ info, dict_get "A" (seen_products (mem (world s))) = Some info ∧
           first_seen info ≠ last_seen info) ∧
  (listed "C" [prod_unpriced] ∧
   dict_get "C" (seen_products (mem fresh_world)) = None ∧
   sent (effects s') = [] ∧
   status s' = Crashed).
Proof.
  split.
  - split; [|split; [reflexivity|split; [reflexivity|]]].
    + split; [discriminate|]. exists prod_A. split; [now left | reflexivity].
    + eexists. split; [vm_compute; reflexivity | discriminate].
  - split; [|split; [reflexivity|split; reflexivity]].
    split; [discriminate|]. exists prod_unpriced.
    split; [now left | reflexivity].
Qed.

(** C5, amended.  On every iteration that fetched a listing and ran to its
    end, the texts sent are the summary alert, if any, followed by one NEW
    message per identity of the listing that was not tracked before, in the
    order of the listing: the announced products [L] are a subsequence of the
    listing, have pairwise different keys, and their keys are exactly the
    listed identities absent from the prior map.  Each of them is tracked
    afterwards with [missing_since] unset, [first_seen] and [last_seen] being
    two readings of the clock, the first taken before the second. *)
Theorem new_items_announced_once (clock : nat -> Z)
    (net : nat -> option Page) (w : World) (prods : list Product) (total : Z) :
  fetch_all_products net = Some (prods, total) →
  status (cycle clock net w) = Running →
  ∃ (L : list Product) (msgs : list string),
    sent (effects (cycle clock net w)) =
      ((if decide (total > last_total_results (mem w))
        then [summary_alert_message total (total - last_total_results (mem w))]
        else []) ++ msgs)%list ∧
    Forall2 (λ p m, product_to_message p "NEW" = Some m) L msgs ∧
    sublist L prods ∧
    NoDup (map extract_product_key L) ∧
    (∀ k, In k (map extract_product_key L) ↔
          listed k prods ∧ dict_get k (seen_products (mem w)) = None) ∧
    (∀ k, listed k prods → dict_get k (seen_products (mem w)) = None →
          ∃ info (i j : nat),
            dict_get k (seen_products (mem (world (cycle clock net w)))) =
              Some info ∧
            missing_since info = None ∧
            (i < j)%nat ∧
            first_seen info = clock i ∧
            last_seen info = clock j).
Proof.
  intros Hf. rewrite (cycle_fetched clock net w prods total Hf).
  rewrite reconcile_status. intros Hrun.
  destruct (detect_new_announces clock prods (scan_start w) Hrun)
    as (L & msgs & H1 & H2 & H3 & H4 & H5).
  exists L, msgs. split; [|split; [exact H2|split; [exact H3|split;
    [exact H4|split; [exact H5|]]]]].
  { rewrite reconcile_sent, H1. reflexivity. }
  intros k Hl Hnone.
  pose proof (detect_new_keys_complete clock prods (scan_start w) k Hrun Hl) as Hin.
  apply dict_get_keys in Hin. destruct Hin as [info0 Hget0].
  destruct (detect_new_fresh_entries clock prods (scan_start w) k info0 Hnone Hget0)
    as (i & _ & Hi & ->).
  assert (Hc : k ∈ sc_codes (fst (detect_new clock prods (scan_start w)))).
  { apply detect_new_codes; [exact Hrun | now right]. }
  rewrite reconcile_cases. simpl. rewrite Hrun. simpl.
  destruct (update_seen_get clock
              (sc_codes (fst (detect_new clock prods (scan_start w))))
              _ (restock_alerted (mem w))
              (sc_ticks (fst (detect_new clock prods (scan_start w))))
              k _ Hget0) as (info' & G1 & G2 & G3 & _).
  destruct (G3 Hc) as (G4 & j & Hj & G5). simpl in G2, G4.
  exists info', i, j. repeat split; auto. lia.
Qed.

Lemma new_items_announced_once_witness :
  ∃ (L : list Product) (msgs : list string),
    sent (effects (cycle ticking (one_page [prod_A; prod_B; prod_A] 8)
                         world_A_missing)) =
      ((if decide (8 > last_total_results (mem world_A_missing))%Z
        then [summary_alert_message 8
                (8 - last_total_results (mem world_A_missing))]
        else []) ++ msgs)%list ∧
    Forall2 (λ p m, product_to_message p "NEW" = Some m) L msgs ∧
    sublist L [prod_A; prod_B; prod_A] ∧
    NoDup (map extract_product_key L) ∧
    (∀ k, In k (map extract_product_key L) ↔
          listed k [prod_A; prod_B; prod_A] ∧
          dict_get k (seen_products (mem world_A_missing)) = None) ∧
    (∀ k, listed k [prod_A; prod_B; prod_A] →
          dict_get k (seen_products (mem world_A_missing)) = None →
          ∃ info (i j : nat),
            dict_get k (seen_products (mem (world
              (cycle ticking (one_page [prod_A; prod_B; prod_A] 8)
                     world_A_missing)))) = Some info ∧
            missing_since info = None ∧
            (i < j)%nat ∧
            first_seen info = ticking i ∧
            last_seen info = ticking j).
Proof.
  apply (new_items_announced_once ticking
           (one_page [prod_A; prod_B; prod_A] 8) world_A_missing
           [prod_A; prod_B; prod_A] 8).
  - reflexivity.
  - vm_compute. reflexivity.
Defined.

(** C6.  Along every run of the loop and for every identity, the restock
    branch marks the identity at most once: its flag in [restock_alerted],
    once set, is set in every later state, so the step on which it goes from
    unset to set occurs at most once.  Every text the run sends is a summary
    alert or a NEW message, so no more than one restock notification is ever
    sent for an identity. *)
Theorem restock_marked_at_most_once (clock : nat -> Z)
    (nets : list (nat -> option Page)) (w : World) (key : string) :
  (restock_marks key (history clock nets w) ≤ 1)%nat ∧
  (alerted w key = true →
   Forall (λ w', alerted w' key = true) (history clock nets w)) ∧
  (∀ text, In text (sent (effects (main_loop clock nets w))) →
           is_summary text ∨ is_new_message text).
Proof.
  split; [apply history_marks|]. split; [apply history_alerted|].
  intros text. apply main_loop_sent_kinds.
Qed.

Lemma restock_marked_at_most_once_witness :
  (restock_marks "A"
     (history ticking [one_page [prod_A] 5; one_page [] 5; one_page [prod_A] 5]
              world_A_alerted) ≤ 1)%nat ∧
  Forall (λ w', alerted w' "A" = true)
    (history ticking [one_page [prod_A] 5; one_page [] 5; one_page [prod_A] 5]
             world_A_alerted).
Proof.
  destruct (restock_marked_at_most_once ticking
              [one_page [prod_A] 5; one_page [] 5; one_page [prod_A] 5]
              world_A_alerted "A") as (H1 & H2 & _).
  split; [exact H1|]. apply H2. reflexivity.
Defined.

(** The mark is counted on the run where "A" comes back, goes away and comes
    back again. *)
Example restock_marks_counts :
  restock_marks "A"
    (history ticking [one_page [prod_A] 5; one_page [] 5; one_page [prod_A] 5]
             world_A_missing) = 1%nat.
Proof. vm_compute. reflexivity. Qed.

(** C7.  Every identity observed in a listing should be in the store after
    the cycle.  On a first start the listing shows "C", whose price cannot
    be read, and then "A": the entry of "C" is stored, building its message
    raises, and the exception leaves the loop.  "A" was observed in the
    listing and is not tracked, in memory or on disk: nothing was saved. *)
Theorem aborted_listing_leaves_observed_untracked :
  let nets := [one_page [prod_unpriced; prod_A] 2] in
  let s := main_loop ticking nets fresh_world in
  observed "A" nets ∧
  status s = Crashed ∧
  ¬ In "A" (keys (seen_products (mem (world s)))) ∧
  saved (effects s) = [].
Proof.
  split; [|split; [|split]].
  - exists (one_page [prod_unpriced; prod_A] 2), [prod_unpriced; prod_A], 2.
    split; [now left|]. split; [reflexivity|].
    split; [discriminate|]. exists prod_A.
    split; [right; now left | reflexivity].
  - vm_compute. reflexivity.
  - vm_compute. intros [H|[]]. discriminate H.
  - vm_compute. reflexivity.
Qed.

(** No iteration removes an entry of [seen_products]: an identity
    tracked at some point is tracked in every later state.  After a run whose
    iterations all ran to their end, the tracked identities are those tracked
    at the start together with those shown, under a non-empty key, by some
    listing fetched so far; from the empty state of a first start they are
    exactly the identities observed.  An identity that is tracked and not
    listed is kept, with [missing_since] set. *)
Theorem tracked_iff_observed (clock : nat -> Z)
    (nets : list (nat -> option Page)) (w : World) (key : string) :
  (In key (keys (seen_products (mem w))) →
   Forall (λ w', In key (keys (seen_products (mem w'))))
          (history clock nets w)) ∧
  (status (main_loop clock nets w) = Running →
   (In key (keys (seen_products (mem (world (main_loop clock nets w))))) ↔
    In key (keys (seen_products (mem w))) ∨ observed key nets)) ∧
  (status (main_loop clock nets fresh_world) = Running →
   (In key (keys (seen_products
                    (mem (world (main_loop clock nets fresh_world))))) ↔
    observed key nets)) ∧
  (∀ net prods total info,
     fetch_all_products net = Some (prods, total) →
     status (cycle clock net w) = Running →
     dict_get key (seen_products (mem w)) = Some info →
     ¬ listed key prods →
     ∃ info',
       dict_get key (seen_products (mem (world (cycle clock net w)))) =
         Some info' ∧
       is_Some (missing_since info')).
Proof.
  split; [apply history_keys|]. split; [apply main_loop_keys|]. split.
  - intros Hrun. rewrite (main_loop_keys clock nets fresh_world key Hrun).
    simpl. tauto.
  - intros net prods total info Hf.
    rewrite (cycle_fetched clock net w prods total Hf), reconcile_status.
    intros Hrun Hget Hnl.
    pose proof (detect_new_keeps clock prods (scan_start w) key info Hget) as Hk.
    assert (Hc : key ∉ sc_codes (fst (detect_new clock prods (scan_start w)))).
    { rewrite (detect_new_codes clock prods (scan_start w) key Hrun). simpl.
      intros [Hin|Hl]; [now apply not_elem_of_empty in Hin | auto]. }
    rewrite reconcile_cases. simpl. rewrite Hrun. simpl.
    destruct (update_seen_get clock
                (sc_codes (fst (detect_new clock prods (scan_start w))))
                _ (restock_alerted (mem w))
                (sc_ticks (fst (detect_new clock prods (scan_start w))))
                key info Hk) as (info' & G1 & _ & _ & G4).
    exists info'. split; [exact G1|]. now apply G4.
Qed.

Lemma tracked_iff_observed_witness :
  In "B" (keys (seen_products (mem (world
    (main_loop ticking [one_page [prod_A] 5; offline; one_page [prod_B] 5]
               fresh_world))))) ↔
  observed "B" [one_page [prod_A] 5; offline; one_page [prod_B] 5].
Proof.
  destruct (tracked_iff_observed ticking
              [one_page [prod_A] 5; offline; one_page [prod_B] 5]
              fresh_world "B") as (_ & _ & H & _).
  apply H. vm_compute. reflexivity.
Defined.

(** C8.  When the fetch fails, the iteration does nothing but sleep for the
    polling interval: it sends no text, saves no state, leaves the in-memory
    state as it was, and the loop goes on with the next iteration from that
    same state. *)
Theorem failed_fetch_skips_cycle (clock : nat -> Z)
    (net : nat -> option Page) (rest : list (nat -> option Page)) (w : World) :
  fetch_all_products net = None →
  cycle clock net w =
    {| effects := [Sleep POLL_INTERVAL_SEC]; world := w; status := Running |} ∧
  sent (effects (cycle clock net w)) = [] ∧
  saved (effects (cycle clock net w)) = [] ∧
  main_loop clock (net :: rest) w =
    {| effects := Sleep POLL_INTERVAL_SEC :: effects (main_loop clock rest w);
       world := world (main_loop clock rest w);
       status := status (main_loop clock rest w) |}.
Proof.
  intros Hf. simpl. rewrite (cycle_failed clock net w Hf). simpl.
  repeat split; reflexivity.
Qed.

Lemma failed_fetch_skips_cycle_witness :
  cycle ticking offline world_A_missing =
    {| effects := [Sleep POLL_INTERVAL_SEC]; world := world_A_missing;
       status := Running |} ∧
  sent (effects (cycle ticking offline world_A_missing)) = [] ∧
  saved (effects (cycle ticking offline world_A_missing)) = [] ∧
  main_loop ticking [offline; one_page [prod_A] 8] world_A_missing =
    {| effects := Sleep POLL_INTERVAL_SEC ::
                  effects (main_loop ticking [one_page [prod_A] 8]
                                     world_A_missing);
       world := world (main_loop ticking [one_page [prod_A] 8] world_A_missing);
       status := status (main_loop ticking [one_page [prod_A] 8]
                                   world_A_missing) |}.
Proof.
  apply (failed_fetch_skips_cycle ticking offline [one_page [prod_A] 8]
           world_A_missing).
  reflexivity.
Defined.

(** C9 as stated fails: the first page declares three pages, the third one
    cannot be fetched, and the fetch still succeeds, with the products of the
    first two pages only. *)
Lemma partial_listing_returned :
  third_page_down 2%nat = None ∧
  fetch_all_products third_page_down = Some ([prod_A; prod_B], 3).
Proof. split; reflexivity. Qed.

(** C9, amended.  The fetch fails as a whole exactly when the first page
    cannot be fetched.  Otherwise it returns the total declared by the first
    page and the products of pages [0..m] merged in page order, where [m]
    counts the further pages fetched before the first failure: either every
    declared page was fetched, or page [m + 1] failed and the pages after it
    were not asked for. *)
Theorem fetch_all_products_merges_prefix (net : nat -> option Page) :
  (net 0%nat = None → fetch_all_products net = None) ∧
  (∀ first, net 0%nat = Some first →
     ∃ m : nat,
       (m ≤ Z.to_nat (declared_pages first - 1))%nat ∧
       (∀ p, (p ≤ m)%nat → is_Some (net p)) ∧
       ((m < Z.to_nat (declared_pages first - 1))%nat → net (S m) = None) ∧
       fetch_all_products net =
         Some (flat_map (page_items net) (seq 0 (S m)), declared_total first)).
Proof.
  split.
  - intros H0. unfold fetch_all_products. now rewrite H0.
  - intros first H0. unfold fetch_all_products. rewrite H0.
    assert (Hp : match totalPages match pagination first with
                   | Some p => p
                   | None => {| totalResults := None; totalPages := None |}
                   end with Some n => n | None => 1 end = declared_pages first).
    { unfold declared_pages. destruct (pagination first); reflexivity. }
    assert (Ht : match totalResults match pagination first with
                   | Some p => p
                   | None => {| totalResults := None; totalPages := None |}
                   end with Some n => n | None => 0 end = declared_total first).
    { unfold declared_total. destruct (pagination first); reflexivity. }
    simpl. rewrite Hp, Ht.
    destruct (fetch_more_merged net (Z.to_nat (declared_pages first - 1)) 1
                match products first with Some ps => ps | None => [] end)
      as (m & Hm & Hall & Hstop & Heq).
    exists m. split; [exact Hm|]. split; [|split].
    + intros [|p] Hp'; [rewrite H0; eauto|].
      specialize (Hall p). simpl in Hall. apply Hall. lia.
    + intros Hlt. apply Hstop in Hlt. exact Hlt.
    + assert (H1 : page_items net 0 =
                   match products first with Some ps => ps | None => [] end).
      { unfold page_items. now rewrite H0. }
      rewrite Heq. simpl. rewrite H1. reflexivity.
Qed.

Lemma fetch_all_products_merges_prefix_witness :
  ∃ m : nat,
    (m ≤ Z.to_nat (3 - 1))%nat ∧
    (∀ p, (p ≤ m)%nat → is_Some (third_page_down p)) ∧
    ((m < Z.to_nat (3 - 1))%nat → third_page_down (S m) = None) ∧
    fetch_all_products third_page_down =
      Some (flat_map (page_items third_page_down) (seq 0 (S m)), 3).
Proof.
  destruct (fetch_all_products_merges_prefix third_page_down) as [_ H].
  apply (H {| products := Some [prod_A];
              pagination := Some {| totalResults := Some 3;
                                    totalPages := Some 3 |} |}).
  reflexivity.
Defined.

(** C10.  Along every run of the loop the stored [last_total_results] never
    decreases from one state to any later one.  An iteration changes it only
    when it fetched a total greater than the stored one, which becomes the
    stored total; a fetched total lower than the stored one leaves it as it
    was. *)
Theorem last_total_never_decreases (clock : nat -> Z)
    (nets : list (nat -> option Page)) (w : World) :
  StronglySorted
    (λ a b, (last_total_results (mem a) ≤ last_total_results (mem b))%Z)
    (history clock nets w) ∧
  (∀ net,
     last_total_results (mem (world (cycle clock net w))) ≠
       last_total_results (mem w) →
     ∃ prods total,
       fetch_all_products net = Some (prods, total) ∧
       (total > last_total_results (mem w))%Z ∧
       last_total_results (mem (world (cycle clock net w))) = total) ∧
  (∀ net prods total,
     fetch_all_products net = Some (prods, total) →
     (total < last_total_results (mem w))%Z →
     last_total_results (mem (world (cycle clock net w))) =
       last_total_results (mem w)).
Proof.
  split; [|split].
  - revert w. induction nets as [|net rest IH]; simpl; intros w.
    { repeat constructor. }
    pose proof (cycle_total_mono clock net w) as Hstep.
    destruct (status (cycle clock net w)).
    + constructor; [apply IH|].
      apply (Forall_impl _ _ _
               (history_total clock rest (world (cycle clock net w)))).
      intros w' Hw'. simpl in Hw'. lia.
    + repeat constructor. exact Hstep.
  - intros net. unfold cycle.
    destruct (fetch_all_products net) as [[prods total]|]; simpl;
      [|congruence].
    rewrite reconcile_total. case_decide; [|congruence].
    intros _. eauto.
  - intros net prods total Hf Hlt.
    rewrite (cycle_fetched clock net w prods total Hf), reconcile_total.
    case_decide; [lia | reflexivity].
Qed.

Lemma last_total_never_decreases_witness :
  last_total_results
    (mem (world (cycle ticking (one_page [prod_A] 3) world_A_missing))) =
  last_total_results (mem world_A_missing).
Proof.
  destruct (last_total_never_decreases ticking [] world_A_missing)
    as (_ & _ & H).
  apply (H (one_page [prod_A] 3) [prod_A] 3).
  - reflexivity.
  - vm_compute. reflexivity.
Defined.

(** * Further properties of the code *)

(** ** [fetch_all_products] *)

Lemma fetch_more_agree (net net' : nat -> option Page) (n page b : nat)
    (acc : list Product) :
  (∀ i, (i < b)%nat → net (page + i)%nat = net' (page + i)%nat) →
  (n ≤ b)%nat ∨ (net (page + b)%nat = None ∧ net' (page + b)%nat = None) →
  fetch_more net page n acc = fetch_more net' page n acc.
Proof.
  revert page b acc. induction n as [|n IH]; simpl; intros page b acc Hag Hb.
  { reflexivity. }
  destruct b as [|b].
  - destruct Hb as [Hb|[H1 H2]]; [lia|].
    rewrite Nat.add_0_r in H1, H2. now rewrite H1, H2.
  - assert (Hp : net page = net' page).
    { specialize (Hag 0%nat). rewrite Nat.add_0_r in Hag. apply Hag. lia. }
    rewrite <- Hp. destruct (net page) as [data|]; [|reflexivity].
    apply (IH (S page) b).
    + intros i Hi. replace (S page + i)%nat with (page + S i)%nat by lia.
      apply Hag. lia.
    + destruct Hb as [Hb|Hb]; [left; lia | right].
      now replace (S page + b)%nat with (page + S b)%nat by lia.
Qed.

Lemma fetch_all_products_unfold (net : nat -> option Page) (first : Page) :
  net 0%nat = Some first →
  fetch_all_products net =
  Some (fetch_more net 1 (Z.to_nat (declared_pages first - 1))
          (page_items net 0),
        declared_total first).
Proof.
  intros H0. unfold fetch_all_products, page_items, declared_pages,
    declared_total. rewrite H0. destruct (pagination first); reflexivity.
Qed.

(** When the first page and every further declared page can be fetched, the
    listing is the products of all declared pages, merged in page order,
    with the total the first page declares. *)
Theorem fetch_all_pages_merged (net : nat -> option Page) (first : Page) :
  net 0%nat = Some first →
  (∀ p, (p ≤ Z.to_nat (declared_pages first - 1))%nat → is_Some (net p)) →
  fetch_all_products net =
  Some (flat_map (page_items net)
          (seq 0 (S (Z.to_nat (declared_pages first - 1)))),
        declared_total first).
Proof.
  intros H0 Hall. rewrite (fetch_all_products_unfold net first H0).
  destruct (fetch_more_merged net (Z.to_nat (declared_pages first - 1)) 1
              (page_items net 0)) as (m & Hm & _ & Hstop & Heq).
  rewrite Heq.
  assert (m = Z.to_nat (declared_pages first - 1)) as <-; [|reflexivity].
  destruct (decide (m < Z.to_nat (declared_pages first - 1))%nat) as [Hlt|];
    [|lia].
  specialize (Hall (S m)). simpl in Hstop. rewrite (Hstop Hlt) in Hall.
  destruct Hall as [x Hx]; [lia | discriminate].
Qed.

Lemma fetch_all_pages_merged_witness :
  fetch_all_products two_pages =
  Some (flat_map (page_items two_pages) (seq 0 (S (Z.to_nat (2 - 1)))), 2).
Proof.
  apply (fetch_all_pages_merged two_pages
           {| products := Some [prod_A];
              pagination := Some {| totalResults := Some 2;
                                    totalPages := Some 2 |} |}).
  - reflexivity.
  - intros [|[|p]] Hp; [vm_compute; eauto | vm_compute; eauto |].
    vm_compute in Hp. lia.
Defined.

(** [fetch_all_products] asks for no page at or beyond the declared page
    count, and for no page after the first one that fails: two networks
    that agree on the pages below [b] give the same listing whenever [b]
    reaches the declared count or page [b] fails on both. *)
Theorem fetch_all_products_local (net net' : nat -> option Page)
    (first : Page) (b : nat) :
  net 0%nat = Some first →
  (0 < b)%nat →
  (∀ p, (p < b)%nat → net p = net' p) →
  (Z.to_nat (declared_pages first) ≤ b)%nat ∨
    (net b = None ∧ net' b = None) →
  fetch_all_products net' = fetch_all_products net.
Proof.
  intros H0 Hb Hag Hstop.
  assert (H0' : net' 0%nat = Some first) by (rewrite <- Hag; [exact H0 | lia]).
  rewrite (fetch_all_products_unfold net first H0),
          (fetch_all_products_unfold net' first H0').
  assert (Hi : page_items net' 0 = page_items net 0).
  { unfold page_items. now rewrite H0, H0'. }
  rewrite Hi. f_equal. f_equal. symmetry.
  apply (fetch_more_agree net net' _ 1 (b - 1)).
  - intros i Hlt. apply Hag. lia.
  - destruct Hstop as [Hs|Hs]; [left; lia | right].
    now replace (1 + (b - 1))%nat with b by lia.
Qed.

Lemma fetch_all_products_local_witness :
  fetch_all_products two_pages_and_more = fetch_all_products two_pages.
Proof.
  apply (fetch_all_products_local two_pages two_pages_and_more
           {| products := Some [prod_A];
              pagination := Some {| totalResults := Some 2;
                                    totalPages := Some 2 |} |} 2).
  - reflexivity.
  - lia.
  - intros [|[|p]] Hp; [reflexivity | reflexivity | lia].
  - left. vm_compute. lia.
Defined.

(** ** Iterations that end, and iterations that abort *)

Section Abort.

Variable clock : nat -> Z.




Lemma fst_summary_alert_sends (total last : Z) :
  fst (summary_alert total last) =
  map Send (sent (fst (summary_alert total last))).
Proof. unfold summary_alert. case_decide; reflexivity. Qed.

Lemma reconcile_sent_parts (prods : list Product) (total : Z) (w : World) :
  (fst (summary_alert total (last_total_results (mem w))) ++
   map Send (sc_sent (fst (detect_new clock prods (scan_start w)))))%list =
  map Send (sent (effects (reconcile clock prods total w))).
Proof.
  rewrite reconcile_sent, map_app, <- summary_alert_sent.
  now rewrite <- fst_summary_alert_sends.
Qed.



Lemma detect_new_nothing_new (prods : list Product) (s : Scan) :
  (∀ k, listed k prods → is_Some (dict_get k (sc_seen s))) →
  snd (detect_new clock prods s) = Running ∧
  sc_seen (fst (detect_new clock prods s)) = sc_seen s ∧
  sc_ticks (fst (detect_new clock prods s)) = sc_ticks s ∧
  sc_sent (fst (detect_new clock prods s)) = sc_sent s.
Proof.
  revert s. induction prods as [|p rest IH]; simpl; intros s Hall.
  { auto. }
  assert (Hrest : ∀ k, listed k rest → is_Some (dict_get k (sc_seen s))).
  { intros k Hk. apply Hall, listed_cons. now right. }
  destruct (decide (extract_product_key p = "")) as [He|He]; [now apply IH|].
  destruct (dict_get (extract_product_key p) (sc_seen s)) eqn:Eget.
  - apply (IH (mkScan _ _ _ _)). exact Hrest.
  - destruct (Hall (extract_product_key p)) as [x Hx]; [|congruence].
    apply listed_cons. now left.
Qed.

(** A listing that shows nothing untracked and declares no higher total is
    processed in silence: nothing is sent, the iteration runs to its end and
    the dict keeps its keys in their order.  Tracked identities that come
    back or go away are never announced. *)
Theorem nothing_new_nothing_sent (net : nat -> option Page) (w : World)
    (prods : list Product) (total : Z) :
  fetch_all_products net = Some (prods, total) →
  (total ≤ last_total_results (mem w))%Z →
  (∀ k, listed k prods → In k (keys (seen_products (mem w)))) →
  sent (effects (cycle clock net w)) = [] ∧
  status (cycle clock net w) = Running ∧
  keys (seen_products (mem (world (cycle clock net w)))) =
    keys (seen_products (mem w)).
Proof.
  intros Hf Hle Hall. rewrite (cycle_fetched clock net w prods total Hf).
  destruct (detect_new_nothing_new prods (scan_start w))
    as (H1 & H2 & H3 & H4).
  { intros k Hk. apply dict_get_keys. now apply Hall. }
  split; [|split].
  - rewrite reconcile_sent, H4. case_decide; [lia | reflexivity].
  - now rewrite reconcile_status.
  - rewrite reconcile_cases. simpl. rewrite H1. simpl.
    rewrite update_seen_keys, H2. reflexivity.
Qed.

(** Fetching again the listing that was just processed sends nothing: no
    alert is repeated. *)
Theorem same_listing_again_is_silent (net net' : nat -> option Page)
    (w : World) (prods : list Product) (total : Z) :
  fetch_all_products net = Some (prods, total) →
  fetch_all_products net' = Some (prods, total) →
  status (cycle clock net w) = Running →
  sent (effects (cycle clock net' (world (cycle clock net w)))) = [] ∧
  status (cycle clock net' (world (cycle clock net w))) = Running.
Proof.
  intros Hf Hf' Hrun.
  rewrite (cycle_fetched clock net' _ prods total Hf').
  destruct (detect_new_nothing_new prods
              (scan_start (world (cycle clock net w))))
    as (H1 & _ & _ & H4).
  { intros k Hk. apply dict_get_keys. simpl.
    apply (cycle_keys clock net w k Hrun). right. eauto. }
  split.
  - rewrite reconcile_sent, H4. simpl.
    rewrite (cycle_fetched clock net w prods total Hf), reconcile_total.
    repeat case_decide; try lia; reflexivity.
  - now rewrite reconcile_status.
Qed.

End Abort.

(** ** The tracked entries *)

Section Store.

Variable clock : nat -> Z.

Lemma dict_get_In (k : string) (info : Info) (d : list (string * Info)) :
  dict_get k d = Some info → In (k, info) d.
Proof.
  induction d as [|[k0 v0] d IH]; simpl; [discriminate|].
  case_decide; [intros [= ->]; subst; now left | right; auto].
Qed.

Lemma dict_set_keys_fresh (k : string) (v : Info) (d : list (string * Info)) :
  dict_get k d = None → keys (dict_set k v d) = (keys d ++ [k])%list.
Proof.
  induction d as [|[k0 v0] d IH]; simpl; [reflexivity|].
  case_decide; [discriminate|]. intros Hd. simpl. now rewrite IH.
Qed.

Lemma dict_set_Forall (P : Info → Prop) (k : string) (v : Info)
    (d : list (string * Info)) :
  Forall (λ e, P (snd e)) d → P v → Forall (λ e, P (snd e)) (dict_set k v d).
Proof.
  induction d as [|[k0 v0] d IH]; simpl; intros Hd Hv.
  { repeat constructor. exact Hv. }
  inversion Hd; subst. case_decide; constructor; auto.
Qed.

Lemma timely_later (t t' : nat) (info : Info) :
  (t ≤ t')%nat → timely clock t info → timely clock t' info.
Proof.
  intros Ht (i & j & Hij & H1 & H2 & H3). exists i, j.
  split; [lia|]. split; [exact H1|]. split; [exact H2|].
  intros m Hm. destruct (H3 m Hm) as (l & Hl & ->). exists l. split; [lia|auto].
Qed.

Lemma detect_new_timely (prods : list Product) (s : Scan) :
  Forall (λ e, timely clock (sc_ticks s) (snd e)) (sc_seen s) →
  Forall (λ e, timely clock (sc_ticks (fst (detect_new clock prods s))) (snd e))
         (sc_seen (fst (detect_new clock prods s))).
Proof.
  revert s. induction prods as [|p rest IH]; simpl; intros s Hs; [exact Hs|].
  destruct (decide (extract_product_key p = "")); [now apply IH|].
  destruct (dict_get (extract_product_key p) (sc_seen s)) eqn:Eget.
  { apply (IH (mkScan _ _ _ _)). exact Hs. }
  assert (Hnew : Forall (λ e, timely clock (S (S (sc_ticks s))) (snd e))
            (dict_set (extract_product_key p)
               {| first_seen := clock (sc_ticks s);
                  last_seen := clock (S (sc_ticks s));
                  missing_since := None |} (sc_seen s))).
  { apply dict_set_Forall.
    - eapply Forall_impl; [exact Hs|]. intros e He.
      apply (timely_later (sc_ticks s)); [lia | exact He].
    - exists (sc_ticks s), (S (sc_ticks s)). simpl.
      split; [lia|]. split; [reflexivity|]. split; [reflexivity|].
      intros m Hm. discriminate. }
  destruct (product_to_message p "NEW"); simpl.
  - apply (IH (mkScan _ _ _ _)). exact Hnew.
  - exact Hnew.
Qed.

Lemma update_seen_timely (codes : gset string) (entries : list (string * Info))
    (ra : gmap string bool) (t0 t : nat) :
  (t0 ≤ t)%nat →
  Forall (λ e, timely clock t0 (snd e)) entries →
  Forall (λ e, timely clock (snd (update_seen clock codes entries ra t)) (snd e))
         (fst (fst (update_seen clock codes entries ra t))).
Proof.
  revert ra t. induction entries as [|[k info] rest IH]; simpl;
    intros ra t Ht Hall.
  { constructor. }
  inversion Hall as [|? ? Hinfo Hrest]; subst. simpl in Hinfo.
  destruct Hinfo as (i & j & Hij & H1 & H2 & H3).
  destruct (decide (k ∉ codes)); [destruct (missing_since info) eqn:Em|];
    match goal with
    | |- context [update_seen clock codes rest ?r ?n] =>
        pose proof (update_seen_ticks clock codes rest r n) as Hn;
        specialize (IH r n);
        destruct (update_seen clock codes rest r n) as [[rest' ra'] t']
    end; simpl in *; (constructor; [|apply IH; [lia | exact Hrest]]); simpl.
  - exists i, j. rewrite Em. repeat split; auto; try lia.
    intros m Hm. destruct (H3 m Hm) as (l & Hl & ->). exists l. split; [lia|auto].
  - exists i, j. simpl. repeat split; auto; try lia.
    intros m [= <-]. exists t. split; [lia | reflexivity].
  - exists i, t. simpl. repeat split; auto; try lia.
    intros m Hm. destruct (H3 m Hm) as (l & Hl & ->). exists l. split; [lia|auto].
Qed.

Lemma cycle_timely (net : nat -> option Page) (w : World) :
  Forall (λ e, timely clock (ticks w) (snd e)) (seen_products (mem w)) →
  Forall (λ e, timely clock (ticks (world (cycle clock net w))) (snd e))
         (seen_products (mem (world (cycle clock net w)))).
Proof.
  intros Hw. unfold cycle.
  destruct (fetch_all_products net) as [[prods total]|]; simpl; [|exact Hw].
  pose proof (detect_new_timely prods (scan_start w) Hw) as Hd.
  rewrite reconcile_cases. simpl.
  destruct (snd (detect_new clock prods (scan_start w))); simpl; [|exact Hd].
  apply (update_seen_timely _ _ _
           (sc_ticks (fst (detect_new clock prods (scan_start w)))));
    [lia | exact Hd].
Qed.

(** With a clock that never goes back, the timestamps of every tracked
    identity stay in order along every run: [first_seen] is not later than
    [last_seen], nor than [missing_since] when that is set.  This holds from
    any state whose timestamps are readings of the clock taken in that
    order, the empty state of a first start among them. *)
Theorem timestamps_stay_ordered (nets : list (nat -> option Page)) (w : World) :
  (∀ i j : nat, (i ≤ j)%nat → (clock i ≤ clock j)%Z) →
  Forall (λ e, timely clock (ticks w) (snd e)) (seen_products (mem w)) →
  Forall (λ w', ∀ k info,
            dict_get k (seen_products (mem w')) = Some info →
            (first_seen info ≤ last_seen info)%Z ∧
            ∀ m, missing_since info = Some m → (first_seen info ≤ m)%Z)
         (history clock nets w).
Proof.
  intros Hmono Hw.
  pose proof (history_preserved clock
    (λ w', Forall (λ e, timely clock (ticks w') (snd e))
                  (seen_products (mem w')))
    (λ net w0, cycle_timely net w0) nets w Hw) as Hall.
  eapply Forall_impl; [exact Hall|]. simpl. intros w' Hw' k info Hget.
  apply dict_get_In in Hget. rewrite Forall_forall in Hw'.
  apply list_elem_of_In in Hget. specialize (Hw' _ Hget). simpl in Hw'.
  destruct Hw' as (i & j & Hij & -> & -> & H3). split.
  - apply Hmono. lia.
  - intros m Hm. destruct (H3 m Hm) as (l & Hl & ->). apply Hmono. lia.
Qed.

(** What the loop over the tracked identities does to one entry. *)
Lemma update_seen_entry (codes : gset string) (entries : list (string * Info))
    (ra : gmap string bool) (t : nat) (k : string) (info : Info) :
  dict_get k entries = Some info →
  ∃ info',
    dict_get k (fst (fst (update_seen clock codes entries ra t))) = Some info' ∧
    first_seen info' = first_seen info ∧
    (k ∈ codes →
       missing_since info' = missing_since info ∧
       ∃ j, (t ≤ j < snd (update_seen clock codes entries ra t))%nat ∧
            last_seen info' = clock j) ∧
    (k ∉ codes →
       last_seen info' = last_seen info ∧
       match missing_since info with
       | Some m => missing_since info' = Some m
       | None =>
           ∃ j, (t ≤ j < snd (update_seen clock codes entries ra t))%nat ∧
                missing_since info' = Some (clock j)
       end).
Proof.
  revert ra t. induction entries as [|[k0 info0] rest IH]; simpl;
    intros ra t Hk.
  { discriminate. }
  destruct (decide (k = k0)) as [->|Hne].
  - injection Hk as ->.
    destruct (decide (k0 ∉ codes)) as [Hout|Hin];
      [destruct (missing_since info) as [m|] eqn:Em|];
      match goal with
      | |- context [update_seen clock codes rest ?r ?n] =>
          pose proof (update_seen_ticks clock codes rest r n) as Hn;
          destruct (update_seen clock codes rest r n) as [[rest' ra'] t']
      end; simpl in *; (case_decide; [|congruence]);
      eexists; (split; [reflexivity|]); simpl;
      (split; [reflexivity|]).
    + rewrite Em. split; [tauto | auto].
    + split; [tauto|]. intros _. split; [reflexivity|].
      exists t. split; [lia | reflexivity].
    + split; [|intros Hn'; exfalso; apply Hin, Hn'].
      intros _. split; [reflexivity|]. exists t. split; [lia | reflexivity].
  - destruct (decide (k0 ∉ codes)); [destruct (missing_since info0)|];
      match goal with
      | |- context [update_seen clock codes rest ?r ?n] =>
          destruct (IH r n Hk) as (i' & H1 & H2 & H3 & H4);
          destruct (update_seen clock codes rest r n) as [[rest' ra'] t']
      end; simpl in *; (case_decide; [congruence|]); exists i';
      (split; [exact H1|]); (split; [exact H2|]); split.
    + exact H3.
    + exact H4.
    + intros Hc. destruct (H3 Hc) as (G1 & j & Hj & G2).
      split; [exact G1|]. exists j. split; [lia | exact G2].
    + intros Hc. destruct (H4 Hc) as (G1 & G2). split; [exact G1|].
      destruct (missing_since info); [exact G2|].
      destruct G2 as (j & Hj & G2). exists j. split; [lia | exact G2].
    + intros Hc. destruct (H3 Hc) as (G1 & j & Hj & G2).
      split; [exact G1|]. exists j. split; [lia | exact G2].
    + intros Hc. destruct (H4 Hc) as (G1 & G2). split; [exact G1|].
      destruct (missing_since info); [exact G2|].
      destruct G2 as (j & Hj & G2). exists j. split; [lia | exact G2].
Qed.

End Store.

Section Entries.

Variable clock : nat -> Z.

Lemma cycle_entry_kept (net : nat -> option Page) (w : World) (k : string)
    (info : Info) :
  dict_get k (seen_products (mem w)) = Some info →
  ∃ info',
    dict_get k (seen_products (mem (world (cycle clock net w)))) = Some info' ∧
    first_seen info' = first_seen info ∧
    ∀ t, missing_since info = Some t → missing_since info' = Some t.
Proof.
  intros Hget. unfold cycle.
  destruct (fetch_all_products net) as [[prods total]|]; simpl; [|eauto].
  pose proof (detect_new_keeps clock prods (scan_start w) k info Hget) as Hk.
  rewrite reconcile_cases. simpl.
  destruct (snd (detect_new clock prods (scan_start w))); simpl; [|eauto].
  destruct (update_seen_entry clock
              (sc_codes (fst (detect_new clock prods (scan_start w))))
              _ (restock_alerted (mem w))
              (sc_ticks (fst (detect_new clock prods (scan_start w))))
              k info Hk) as (info' & H1 & H2 & H3 & H4).
  exists info'. split; [exact H1|]. split; [exact H2|]. intros t Ht.
  destruct (decide (k ∈ sc_codes (fst (detect_new clock prods (scan_start w)))))
    as [Hc|Hc].
  - destruct (H3 Hc) as [G _]. congruence.
  - destruct (H4 Hc) as [_ G]. rewrite Ht in G. exact G.
Qed.

(** Along every run, a tracked identity keeps the [first_seen] it was given,
    and a [missing_since] that is set keeps its value: neither is ever
    overwritten or removed, whether the identity is listed or not, the fetch
    fails or the iteration aborts. *)
Theorem first_seen_and_missing_since_kept (nets : list (nat -> option Page))
    (w : World) (k : string) (info : Info) :
  dict_get k (seen_products (mem w)) = Some info →
  Forall (λ w', ∃ info',
            dict_get k (seen_products (mem w')) = Some info' ∧
            first_seen info' = first_seen info ∧
            ∀ t, missing_since info = Some t → missing_since info' = Some t)
         (history clock nets w).
Proof.
  intros Hget.
  apply (history_preserved clock
    (λ w', ∃ info',
       dict_get k (seen_products (mem w')) = Some info' ∧
       first_seen info' = first_seen info ∧
       ∀ t, missing_since info = Some t → missing_since info' = Some t)).
  - intros net w0 (info0 & G1 & G2 & G3).
    destruct (cycle_entry_kept net w0 k info0 G1) as (info1 & K1 & K2 & K3).
    exists info1. split; [exact K1|]. split; [congruence|].
    intros t Ht. apply K3, G3, Ht.
  - exists info. auto.
Qed.

(** On an iteration that fetched a listing and ran to its end, a tracked
    identity that is listed gets [last_seen] set to a reading of the clock
    taken during the iteration and keeps [missing_since] as it was; one that
    is not listed keeps [last_seen], and its [missing_since], if unset, is set
    to a reading taken during the iteration. *)
Theorem cycle_refreshes_timestamps (net : nat -> option Page) (w : World)
    (prods : list Product) (total : Z) (k : string) (info : Info) :
  fetch_all_products net = Some (prods, total) →
  status (cycle clock net w) = Running →
  dict_get k (seen_products (mem w)) = Some info →
  ∃ info',
    dict_get k (seen_products (mem (world (cycle clock net w)))) = Some info' ∧
    (listed k prods →
       missing_since info' = missing_since info ∧
       ∃ j, (ticks w ≤ j < ticks (world (cycle clock net w)))%nat ∧
            last_seen info' = clock j) ∧
    (¬ listed k prods →
       last_seen info' = last_seen info ∧
       match missing_since info with
       | Some m => missing_since info' = Some m
       | None =>
           ∃ j, (ticks w ≤ j < ticks (world (cycle clock net w)))%nat ∧
                missing_since info' = Some (clock j)
       end).
Proof.
  intros Hf. rewrite (cycle_fetched clock net w prods total Hf).
  rewrite reconcile_status. intros Hrun Hget.
  pose proof (detect_new_keeps clock prods (scan_start w) k info Hget) as Hk.
  pose proof (detect_new_ticks clock prods (scan_start w)) as Ht. simpl in Ht.
  pose proof (detect_new_codes clock prods (scan_start w) k Hrun) as Hc.
  simpl in Hc.
  rewrite reconcile_cases. simpl. rewrite Hrun. simpl.
  destruct (update_seen_entry clock
              (sc_codes (fst (detect_new clock prods (scan_start w))))
              _ (restock_alerted (mem w))
              (sc_ticks (fst (detect_new clock prods (scan_start w))))
              k info Hk) as (info' & H1 & H2 & H3 & H4).
  exists info'. split; [exact H1|]. split.
  - intros Hl. destruct H3 as (G1 & j & Hj & G2); [apply Hc; now right|].
    split; [exact G1|]. exists j. split; [lia | exact G2].
  - intros Hl. destruct H4 as (G1 & G2).
    { rewrite Hc. intros [Hin|Hin]; [now apply not_elem_of_empty in Hin | auto]. }
    split; [exact G1|]. destruct (missing_since info); [exact G2|].
    destruct G2 as (j & Hj & G2). exists j. split; [lia | exact G2].
Qed.

(** *** Order and uniqueness of the keys *)

Lemma detect_new_appends (prods : list Product) (s : Scan) :
  snd (detect_new clock prods s) = Running →
  ∃ (L : list Product) (msgs : list string),
    sc_sent (fst (detect_new clock prods s)) = (sc_sent s ++ msgs)%list ∧
    Forall2 (λ p m, product_to_message p "NEW" = Some m) L msgs ∧
    keys (sc_seen (fst (detect_new clock prods s))) =
      (keys (sc_seen s) ++ map extract_product_key L)%list.
Proof.
  revert s. induction prods as [|p rest IH]; simpl; intros s Hrun.
  { exists [], []. rewrite !app_nil_r. repeat split. constructor. }
  destruct (decide (extract_product_key p = "")); [now apply IH|].
  destruct (dict_get (extract_product_key p) (sc_seen s)) eqn:Eget.
  { apply (IH (mkScan _ _ _ _) Hrun). }
  destruct (product_to_message p "NEW") as [msg|] eqn:Emsg; [|discriminate].
  match type of Hrun with
  | context [detect_new _ _ ?s'] =>
      destruct (IH s' Hrun) as (L & msgs & H1 & H2 & H3)
  end.
  simpl in H1, H3. exists (p :: L), (msg :: msgs).
  split; [|split].
  - rewrite H1. now rewrite <- app_assoc.
  - now constructor.
  - rewrite H3, dict_set_keys_fresh by exact Eget.
    simpl. now rewrite <- app_assoc.
Qed.

Lemma detect_new_NoDup (prods : list Product) (s : Scan) :
  NoDup (keys (sc_seen s)) →
  NoDup (keys (sc_seen (fst (detect_new clock prods s)))).
Proof.
  revert s. induction prods as [|p rest IH]; simpl; intros s Hs; [exact Hs|].
  destruct (decide (extract_product_key p = "")); [now apply IH|].
  destruct (dict_get (extract_product_key p) (sc_seen s)) eqn:Eget.
  { apply (IH (mkScan _ _ _ _) Hs). }
  assert (Hnew : ∀ v, NoDup (keys (dict_set (extract_product_key p) v (sc_seen s)))).
  { intros v. rewrite dict_set_keys_fresh by exact Eget.
    apply NoDup_app. split; [exact Hs|]. split; [|apply NoDup_singleton].
    intros x Hx Hx'. apply list_elem_of_singleton in Hx'. subst x.
    apply dict_get_None_keys in Eget. apply Eget. now apply list_elem_of_In. }
  destruct (product_to_message p "NEW"); simpl.
  - apply (IH (mkScan _ _ _ _)). apply Hnew.
  - apply Hnew.
Qed.

Lemma cycle_NoDup (net : nat -> option Page) (w : World) :
  NoDup (keys (seen_products (mem w))) →
  NoDup (keys (seen_products (mem (world (cycle clock net w))))).
Proof.
  intros Hw. unfold cycle.
  destruct (fetch_all_products net) as [[prods total]|]; simpl; [|exact Hw].
  pose proof (detect_new_NoDup prods (scan_start w) Hw) as Hd.
  rewrite reconcile_cases. simpl.
  destruct (snd (detect_new clock prods (scan_start w))); simpl; [|exact Hd].
  now rewrite update_seen_keys.
Qed.


(** *** The restock flags *)

Lemma update_seen_flag_other (codes : gset string)
    (entries : list (string * Info)) (ra : gmap string bool) (t : nat)
    (k : string) :
  ¬ In k (keys entries) →
  snd (fst (update_seen clock codes entries ra t)) !! k = ra !! k.
Proof.
  revert ra t. induction entries as [|[k0 info] rest IH]; simpl; intros ra t Hk.
  { reflexivity. }
  assert (Hne : k0 ≠ k) by tauto. assert (Hr : ¬ In k (keys rest)) by tauto.
  destruct (decide (k0 ∉ codes)); [destruct (missing_since info)|];
    match goal with
    | |- context [update_seen clock codes rest ?r ?n] =>
        specialize (IH r n Hr);
        destruct (update_seen clock codes rest r n) as [[rest' ra'] t']
    end; simpl in *; rewrite IH; auto.
  destruct (missing_since info); [|reflexivity].
  destruct (truthy (ra !! k0)); [reflexivity|]. now rewrite lookup_insert_ne.
Qed.

Lemma update_seen_flag (codes : gset string) (entries : list (string * Info))
    (ra : gmap string bool) (t : nat) (k : string) (info : Info) :
  NoDup (keys entries) →
  dict_get k entries = Some info →
  truthy (snd (fst (update_seen clock codes entries ra t)) !! k) = true ↔
  truthy (ra !! k) = true ∨ (k ∈ codes ∧ is_Some (missing_since info)).
Proof.
  revert ra t. induction entries as [|[k0 info0] rest IH]; simpl;
    intros ra t Hnd Hk.
  { discriminate. }
  apply NoDup_cons in Hnd. destruct Hnd as [Hk0 Hnd].
  rewrite list_elem_of_In in Hk0.
  destruct (decide (k = k0)) as [->|Hne].
  - injection Hk as ->.
    destruct (decide (k0 ∉ codes)) as [Hout|Hin];
      [destruct (missing_since info) as [m|] eqn:Em|];
      match goal with
      | |- context [update_seen clock codes rest ?r ?n] =>
          pose proof (update_seen_flag_other codes rest r n k0 Hk0) as Ho;
          destruct (update_seen clock codes rest r n) as [[rest' ra'] t']
      end; simpl in *; rewrite Ho.
    + split; [tauto | intros [?|[? _]]; tauto].
    + split; [tauto | intros [?|[? _]]; tauto].
    + assert (Hc : k0 ∈ codes) by (destruct (decide (k0 ∈ codes)); tauto).
      destruct (missing_since info) as [m|].
      * destruct (truthy (ra !! k0)) eqn:E0.
        -- rewrite E0. tauto.
        -- rewrite lookup_insert_eq. simpl. split; [|reflexivity].
           intros _. right. eauto.
      * split; [tauto|]. intros [?|[_ [x Hx]]]; [assumption | discriminate].
  - assert (Hstep : ∀ ra1 t1, ra1 !! k = ra !! k →
        truthy (snd (fst (update_seen clock codes rest ra1 t1)) !! k) = true ↔
        truthy (ra !! k) = true ∨ (k ∈ codes ∧ is_Some (missing_since info))).
    { intros ra1 t1 Heq. rewrite (IH ra1 t1 Hnd Hk), Heq. reflexivity. }
    destruct (decide (k0 ∉ codes)); [destruct (missing_since info0)|];
      match goal with
      | |- context [update_seen clock codes rest ?r ?n] =>
          specialize (Hstep r n);
          destruct (update_seen clock codes rest r n) as [[rest' ra'] t']
      end; simpl in *; apply Hstep; auto.
    destruct (missing_since info0); [|reflexivity].
    destruct (truthy (ra !! k0)); [reflexivity|].
    rewrite lookup_insert_ne; auto.
Qed.

(** On an iteration that fetched a listing and ran to its end, the restock
    flag of an identity is set afterwards exactly when it was set before, or
    the identity is listed and its entry from before the iteration carries
    [missing_since]. *)
Theorem restock_flag_set_iff (net : nat -> option Page) (w : World)
    (prods : list Product) (total : Z) (k : string) :
  NoDup (keys (seen_products (mem w))) →
  fetch_all_products net = Some (prods, total) →
  status (cycle clock net w) = Running →
  alerted (world (cycle clock net w)) k = true ↔
  alerted w k = true ∨
  (listed k prods ∧
   ∃ info t, dict_get k (seen_products (mem w)) = Some info ∧
             missing_since info = Some t).
Proof.
  intros Hnd Hf. rewrite (cycle_fetched clock net w prods total Hf).
  rewrite reconcile_status. intros Hrun.
  pose proof (detect_new_NoDup prods (scan_start w) Hnd) as Hnd'.
  pose proof (detect_new_codes clock prods (scan_start w) k Hrun) as Hc.
  simpl in Hc.
  assert (Hl : k ∈ sc_codes (fst (detect_new clock prods (scan_start w))) ↔
               listed k prods).
  { rewrite Hc. split; [|tauto].
    intros [Hin|?]; [now apply not_elem_of_empty in Hin | assumption]. }
  unfold alerted. rewrite reconcile_cases. simpl. rewrite Hrun. simpl.
  destruct (dict_get k (sc_seen (fst (detect_new clock prods (scan_start w)))))
    as [info1|] eqn:E1.
  - rewrite (update_seen_flag _ _ _ _ k info1 Hnd' E1), Hl.
    destruct (dict_get k (seen_products (mem w))) as [info0|] eqn:E0.
    + pose proof (detect_new_keeps clock prods (scan_start w) k info0 E0) as Hk.
      assert (info1 = info0) as -> by congruence.
      split; (intros [?|[? Hm]]; [now left | right; split; [assumption|]]).
      * destruct Hm as [t Ht]. eauto.
      * destruct Hm as (i & t & [= <-] & Ht). eauto.
    + destruct (detect_new_fresh_entries clock prods (scan_start w) k info1 E0 E1)
        as (i & _ & _ & ->). simpl.
      split; (intros [?|[_ Hm]]; [now left|]).
      * destruct Hm as [x Hx]. discriminate.
      * destruct Hm as (i0 & t & Hi & _). discriminate.
  - apply dict_get_None_keys in E1.
    rewrite (update_seen_flag_other _ _ _ _ k E1).
    split; [tauto|]. intros [?|[_ (i & t & Hi & _)]]; [assumption|].
    exfalso. apply E1, dict_get_keys.
    exists i. now apply (detect_new_keeps clock prods (scan_start w)).
Qed.

End Entries.

(** ** Failed fetches and the state file *)

Lemma saved_app (fx1 fx2 : list Effect) :
  saved (fx1 ++ fx2) = (saved fx1 ++ saved fx2)%list.
Proof. unfold saved. apply flat_map_app. Qed.

Lemma disk_after_app (file : option State) (fx1 fx2 : list Effect) :
  disk_after file (fx1 ++ fx2) = disk_after (disk_after file fx1) fx2.
Proof. unfold disk_after. apply fold_left_app. Qed.

Lemma disk_after_sends (file : option State) (l : list string) :
  disk_after file (map Send l) = file.
Proof. revert file. induction l as [|x l IH]; simpl; auto. Qed.

Section Restart.

Variable clock : nat -> Z.

(** Iterations whose fetch fails leave no trace but their sleeps: dropping
    them from a run changes neither the state it ends in, nor whether it is
    still running, nor the texts sent, nor the states saved. *)
Theorem failed_fetches_leave_no_trace (nets : list (nat -> option Page))
    (w : World) :
  world (main_loop clock nets w) =
    world (main_loop clock (List.filter fetch_ok nets) w) ∧
  status (main_loop clock nets w) =
    status (main_loop clock (List.filter fetch_ok nets) w) ∧
  sent (effects (main_loop clock nets w)) =
    sent (effects (main_loop clock (List.filter fetch_ok nets) w)) ∧
  saved (effects (main_loop clock nets w)) =
    saved (effects (main_loop clock (List.filter fetch_ok nets) w)).
Proof.
  revert w. induction nets as [|net rest IH]; intros w; [simpl; auto|].
  cbn [List.filter]. destruct (fetch_ok net) eqn:Hok.
  - cbn [main_loop]. destruct (status (cycle clock net w)); [|auto].
    destruct (IH (world (cycle clock net w))) as (H1 & H2 & H3 & H4).
    cbn [world status effects]. rewrite !sent_app, !saved_app, H3, H4. auto.
  - assert (Hf : fetch_all_products net = None).
    { unfold fetch_ok in Hok.
      destruct (fetch_all_products net); [discriminate | reflexivity]. }
    cbn [main_loop]. rewrite (cycle_failed clock net w Hf).
    cbn [world status effects]. apply IH.
Qed.

Lemma cycle_disk (net : nat -> option Page) (w : World) (file : option State) :
  status (cycle clock net w) = Running →
  load_state file = mem w →
  load_state (disk_after file (effects (cycle clock net w))) =
  mem (world (cycle clock net w)).
Proof.
  unfold cycle. destruct (fetch_all_products net) as [[prods total]|]; simpl;
    [|auto].
  rewrite reconcile_status. intros Hrun _.
  assert (He : effects (reconcile clock prods total w) =
    (map Send (sent (effects (reconcile clock prods total w))) ++
     [Save (mem (world (reconcile clock prods total w)));
      Sleep POLL_INTERVAL_SEC])%list).
  { rewrite <- reconcile_sent_parts. rewrite reconcile_cases. simpl.
    rewrite Hrun. simpl. now rewrite <- app_assoc. }
  rewrite He, disk_after_app, disk_after_sends. reflexivity.
Qed.

(** When the state in memory is the one the state file decodes to, it still
    is after every run whose iterations ran to their end (each [save_state]
    having written its argument): stopping the process there and starting it
    again resumes from the very same state. *)
Theorem restart_resumes (nets : list (nat -> option Page)) (w : World)
    (file : option State) :
  load_state file = mem w →
  status (main_loop clock nets w) = Running →
  load_state (disk_after file (effects (main_loop clock nets w))) =
  mem (world (main_loop clock nets w)).
Proof.
  revert w file. induction nets as [|net rest IH]; simpl; intros w file Hl.
  { auto. }
  destruct (status (cycle clock net w)) eqn:Es; simpl;
    [|intros Hc; congruence].
  intros Hrun. rewrite disk_after_app. apply IH; [|exact Hrun].
  now apply cycle_disk.
Qed.

End Restart.

(** ** The summary text *)

Lemma pretty_N_go_numeral (x : N) (s : string) :
  numeral s = true → numeral (pretty_N_go x s) = true.
Proof.
  revert s. induction (N.lt_wf_0 x) as [x _ IH]; intros s Hs.
  destruct (decide (x = 0)%N) as [->|Hx].
  - now rewrite pretty_N_go_0.
  - rewrite pretty_N_go_step by lia. apply IH.
    + apply N.div_lt; lia.
    + simpl. rewrite Hs. unfold pretty_N_char.
      repeat case_match; reflexivity.
Qed.

Lemma pretty_Z_numeral (z : Z) : numeral (pretty z) = true.
Proof.
  assert (HN : ∀ n : N, numeral (pretty n) = true).
  { intros n. unfold pretty, pretty_N.
    case_decide; [reflexivity | now apply pretty_N_go_numeral]. }
  destruct z as [|p|p]; [reflexivity | apply (HN (Npos p)) |].
  change (pretty (Z.neg p)) with ("-" +:+ pretty (Npos p)).
  simpl. apply (HN (Npos p)).
Qed.

Lemma numeral_delimited (c : ascii) (s1 s2 r1 r2 : string) :
  numeral_char c = false →
  numeral s1 = true → numeral s2 = true →
  s1 +:+ String c r1 = s2 +:+ String c r2 →
  s1 = s2 ∧ r1 = r2.
Proof.
  intros Hc. revert s2. induction s1 as [|a s1 IH]; intros [|b s2];
    simpl; intros H1 H2 Heq.
  - injection Heq as ->. auto.
  - injection Heq as -> _. apply andb_true_iff in H2. destruct H2. congruence.
  - injection Heq as -> _. apply andb_true_iff in H1. destruct H1. congruence.
  - injection Heq as -> Heq.
    apply andb_true_iff in H1. apply andb_true_iff in H2.
    destruct (IH s2) as [-> ->]; tauto.
Qed.

(** The summary text determines the two numbers it was built from. *)
Theorem summary_alert_message_inj (a b a' b' : Z) :
  summary_alert_message a b = summary_alert_message a' b' →
  a = a' ∧ b = b'.
Proof.
  unfold summary_alert_message. intros Heq.
  apply (inj (String.append _)) in Heq.
  apply (inj (String.append _)) in Heq.
  apply (inj (String.append _)) in Heq.
  change (" " +:+ ?x) with (String " " x) in Heq.
  apply (numeral_delimited " ") in Heq;
    [|reflexivity | apply pretty_Z_numeral | apply pretty_Z_numeral].
  destruct Heq as [Ha Heq]. apply (inj pretty) in Ha.
  apply (inj (String.append _)) in Heq.
  apply (inj (String.append _)) in Heq.
  change (")</b>") with (String ")" "</b>") in Heq.
  apply (numeral_delimited ")") in Heq;
    [|reflexivity | apply pretty_Z_numeral | apply pretty_Z_numeral].
  destruct Heq as [Hb _]. apply (inj pretty) in Hb. auto.
Qed.

(** ** The properties above on sample runs *)



Lemma nothing_new_nothing_sent_witness :
  sent (effects (cycle ticking (one_page [prod_A] 5) world_A_missing)) = [] ∧
  status (cycle ticking (one_page [prod_A] 5) world_A_missing) = Running ∧
  keys (seen_products (mem (world
    (cycle ticking (one_page [prod_A] 5) world_A_missing)))) =
  keys (seen_products (mem world_A_missing)).
Proof.
  apply (nothing_new_nothing_sent ticking (one_page [prod_A] 5)
           world_A_missing [prod_A] 5).
  - reflexivity.
  - vm_compute. discriminate.
  - intros k [_ (p & [<-|[]] & <-)]. vm_compute. now left.
Defined.

Lemma same_listing_again_is_silent_witness :
  sent (effects (cycle ticking (one_page [prod_A; prod_B] 8)
                  (world (cycle ticking (one_page [prod_A; prod_B] 8)
                                world_A_missing)))) = [] ∧
  status (cycle ticking (one_page [prod_A; prod_B] 8)
            (world (cycle ticking (one_page [prod_A; prod_B] 8)
                          world_A_missing))) = Running.
Proof.
  apply (same_listing_again_is_silent ticking
           (one_page [prod_A; prod_B] 8) (one_page [prod_A; prod_B] 8)
           world_A_missing [prod_A; prod_B] 8).
  - reflexivity.
  - reflexivity.
  - vm_compute. reflexivity.
Defined.

Lemma timestamps_stay_ordered_witness :
  Forall (λ w', ∀ k info,
            dict_get k (seen_products (mem w')) = Some info →
            (first_seen info ≤ last_seen info)%Z ∧
            ∀ m, missing_since info = Some m → (first_seen info ≤ m)%Z)
         (history ticking [one_page [prod_A] 5; one_page [] 5] fresh_world).
Proof.
  apply (timestamps_stay_ordered ticking
           [one_page [prod_A] 5; one_page [] 5] fresh_world).
  - intros i j Hij. unfold ticking. lia.
  - simpl. constructor.
Defined.

Lemma first_seen_and_missing_since_kept_witness :
  Forall (λ w', ∃ info',
            dict_get "A" (seen_products (mem w')) = Some info' ∧
            first_seen info' = 1 ∧
            ∀ t, Some 2 = Some t → missing_since info' = Some t)
         (history ticking [one_page [prod_A] 5; offline; one_page [] 5]
                  world_A_missing).
Proof.
  apply (first_seen_and_missing_since_kept ticking
           [one_page [prod_A] 5; offline; one_page [] 5] world_A_missing "A"
           {| first_seen := 1; last_seen := 1; missing_since := Some 2 |}).
  reflexivity.
Defined.

Lemma cycle_refreshes_timestamps_witness :
  ∃ info',
    dict_get "A" (seen_products (mem (world
      (cycle ticking (one_page [prod_B] 5) world_A_missing)))) = Some info' ∧
    (listed "A" [prod_B] →
       missing_since info' = Some 2 ∧
       ∃ j, (ticks world_A_missing ≤ j <
             ticks (world (cycle ticking (one_page [prod_B] 5)
                                 world_A_missing)))%nat ∧
            last_seen info' = ticking j) ∧
    (¬ listed "A" [prod_B] →
       last_seen info' = 1 ∧ missing_since info' = Some 2).
Proof.
  apply (cycle_refreshes_timestamps ticking (one_page [prod_B] 5)
           world_A_missing [prod_B] 5 "A"
           {| first_seen := 1; last_seen := 1; missing_since := Some 2 |}).
  - reflexivity.
  - vm_compute. reflexivity.
  - reflexivity.
Defined.


Lemma restock_flag_set_iff_witness :
  alerted (world (cycle ticking (one_page [prod_A] 5) world_A_missing)) "A"
    = true ↔
  alerted world_A_missing "A" = true ∨
  (listed "A" [prod_A] ∧
   ∃ info t, dict_get "A" (seen_products (mem world_A_missing)) = Some info ∧
             missing_since info = Some t).
Proof.
  apply (restock_flag_set_iff ticking (one_page [prod_A] 5) world_A_missing
           [prod_A] 5 "A").
  - simpl. apply NoDup_singleton.
  - reflexivity.
  - vm_compute. reflexivity.
Defined.

Lemma restart_resumes_witness :
  load_state (disk_after None
    (effects (main_loop ticking [one_page [prod_A] 5; offline; one_page [] 5]
                        fresh_world))) =
  mem (world (main_loop ticking [one_page [prod_A] 5; offline; one_page [] 5]
                        fresh_world)).
Proof.
  apply (restart_resumes ticking [one_page [prod_A] 5; offline; one_page [] 5]
           fresh_world None).
  - reflexivity.
  - vm_compute. reflexivity.
Defined.

Lemma summary_alert_message_inj_witness : (8 = 8 ∧ 3 = 3)%Z.
Proof.
  apply (summary_alert_message_inj 8 3 8 3). reflexivity.
Defined.

(** ** Whole runs *)

Section WholeRuns.

Variable clock : nat -> Z.

Lemma main_loop_appends (nets : list (nat -> option Page)) (w : World) :
  status (main_loop clock nets w) = Running →
  ∃ (L : list Product) (msgs sums : list string),
    Forall2 (λ p m, product_to_message p "NEW" = Some m) L msgs ∧
    Forall is_summary sums ∧
    Permutation (sent (effects (main_loop clock nets w))) (sums ++ msgs) ∧
    sublist msgs (sent (effects (main_loop clock nets w))) ∧
    keys (seen_products (mem (world (main_loop clock nets w)))) =
      (keys (seen_products (mem w)) ++ map extract_product_key L)%list.
Proof.
  revert w. induction nets as [|net rest IH]; simpl; intros w.
  { intros _. exists [], [], []. simpl.
    split; [constructor|]. split; [constructor|]. split; [constructor|].
    split; [apply sublist_nil | now rewrite app_nil_r]. }
  destruct (status (cycle clock net w)) eqn:Es; simpl; [|intros; congruence].
  intros Hrun.
  destruct (IH _ Hrun) as (L2 & msgs2 & sums2 & A1 & A2 & A3 & A4 & A5).
  rewrite sent_app, A5. unfold cycle in *.
  destruct (fetch_all_products net) as [[prods total]|] eqn:Hf; simpl in *.
  - rewrite reconcile_status in Es.
    destruct (detect_new_appends clock prods (scan_start w) Es)
      as (L1 & msgs1 & B1 & B2 & B3).
    simpl in B1, B3.
    assert (Hk : keys (seen_products (mem (world (reconcile clock prods total w))))
                 = (keys (seen_products (mem w)) ++ map extract_product_key L1)%list).
    { rewrite reconcile_cases. simpl. rewrite Es. simpl.
      now rewrite update_seen_keys. }
    set (S1 := if decide (total > last_total_results (mem w))%Z
               then [summary_alert_message total
                       (total - last_total_results (mem w))]
               else []).
    assert (HS : Forall is_summary S1).
    { unfold S1. case_decide; repeat constructor.
      eexists _, _. reflexivity. }
    assert (Hsent : sent (effects (reconcile clock prods total w)) =
                    (S1 ++ msgs1)%list).
    { rewrite reconcile_sent, B1. reflexivity. }
    exists (L1 ++ L2)%list, (msgs1 ++ msgs2)%list, (S1 ++ sums2)%list.
    split; [now apply Forall2_app|]. split; [now apply Forall_app|].
    split; [|split].
    + rewrite Hsent, A3, <- !app_assoc. apply Permutation_app_head.
      apply Permutation_app_swap_app.
    + apply sublist_app; [|exact A4]. rewrite Hsent.
      apply sublist_inserts_l. reflexivity.
    + rewrite Hk, map_app. now rewrite <- app_assoc.
  - exists L2, msgs2, sums2. split; [exact A1|]. split; [exact A2|].
    split; [exact A3|]. split; [exact A4 | reflexivity].
Qed.

(** Along a run whose iterations ran to their end, no identity is announced
    twice.  The texts sent are, up to the places where the summary alerts
    [sums] fall between them, the NEW messages [msgs] in order, one for each
    product of [L]; the keys of [L] are pairwise different and were not
    tracked at the start, and the dict ends with the former keys followed by
    the keys of [L]. *)
Theorem no_identity_announced_twice (nets : list (nat -> option Page))
    (w : World) :
  NoDup (keys (seen_products (mem w))) →
  status (main_loop clock nets w) = Running →
  ∃ (L : list Product) (msgs sums : list string),
    Forall2 (λ p m, product_to_message p "NEW" = Some m) L msgs ∧
    Forall is_summary sums ∧
    Permutation (sent (effects (main_loop clock nets w))) (sums ++ msgs) ∧
    sublist msgs (sent (effects (main_loop clock nets w))) ∧
    keys (seen_products (mem (world (main_loop clock nets w)))) =
      (keys (seen_products (mem w)) ++ map extract_product_key L)%list ∧
    NoDup (map extract_product_key L) ∧
    (∀ p, In p L → ¬ In (extract_product_key p) (keys (seen_products (mem w)))).
Proof.
  intros Hnd Hrun.
  destruct (main_loop_appends nets w Hrun)
    as (L & msgs & sums & A1 & A2 & A3 & A4 & A5).
  exists L, msgs, sums. split; [exact A1|]. split; [exact A2|].
  split; [exact A3|]. split; [exact A4|]. split; [exact A5|].
  assert (Hfin : NoDup (keys (seen_products
                   (mem (world (main_loop clock nets w)))))).
  { pose proof (history_preserved clock
      (λ w', NoDup (keys (seen_products (mem w'))))
      (λ n w0, cycle_NoDup clock n w0) nets w Hnd) as Hall.
    rewrite Forall_forall in Hall. apply Hall.
    apply list_elem_of_In. pose proof (history_last clock nets w) as Hlast.
    apply last_Some in Hlast. destruct Hlast as [l' ->].
    apply in_app_iff. right. now left. }
  rewrite A5 in Hfin. apply NoDup_app in Hfin.
  destruct Hfin as (_ & Hdisj & HL). split; [exact HL|].
  intros p Hp Hin. apply (Hdisj (extract_product_key p)).
  - now apply list_elem_of_In.
  - apply list_elem_of_In, in_map. exact Hp.
Qed.

Lemma cycle_total_max (net : nat -> option Page) (w : World) :
  last_total_results (mem (world (cycle clock net w))) =
  match fetch_all_products net with
  | Some (_, total) => Z.max (last_total_results (mem w)) total
  | None => last_total_results (mem w)
  end.
Proof.
  unfold cycle. destruct (fetch_all_products net) as [[prods total]|]; simpl;
    [|reflexivity].
  rewrite reconcile_total. case_decide; lia.
Qed.

(** After a run whose iterations ran to their end, the stored
    [last_total_results] is the highest of the total stored at the start and
    the totals of all the listings fetched. *)
Theorem last_total_is_highest_seen (nets : list (nat -> option Page))
    (w : World) :
  status (main_loop clock nets w) = Running →
  last_total_results (mem (world (main_loop clock nets w))) =
  fold_left Z.max (fetched_totals nets) (last_total_results (mem w)).
Proof.
  revert w. induction nets as [|net rest IH]; simpl; intros w; [reflexivity|].
  destruct (status (cycle clock net w)) eqn:Es; simpl; [|intros; congruence].
  intros Hrun. unfold fetched_totals in *. rewrite fold_left_app.
  rewrite (IH _ Hrun), cycle_total_max.
  destruct (fetch_all_products net) as [[prods total]|]; reflexivity.
Qed.

End WholeRuns.

Lemma no_identity_announced_twice_witness :
  ∃ (L : list Product) (msgs sums : list string),
    Forall2 (λ p m, product_to_message p "NEW" = Some m) L msgs ∧
    Forall is_summary sums ∧
    Permutation
      (sent (effects (main_loop ticking
         [one_page [prod_B] 6; one_page [] 6; one_page [prod_B; prod_A] 7]
         world_A_missing)))
      (sums ++ msgs) ∧
    sublist msgs
      (sent (effects (main_loop ticking
         [one_page [prod_B] 6; one_page [] 6; one_page [prod_B; prod_A] 7]
         world_A_missing))) ∧
    keys (seen_products (mem (world (main_loop ticking
         [one_page [prod_B] 6; one_page [] 6; one_page [prod_B; prod_A] 7]
         world_A_missing)))) =
      (keys (seen_products (mem world_A_missing)) ++
       map extract_product_key L)%list ∧
    NoDup (map extract_product_key L) ∧
    (∀ p, In p L →
          ¬ In (extract_product_key p)
               (keys (seen_products (mem world_A_missing)))).
Proof.
  apply (no_identity_announced_twice ticking
           [one_page [prod_B] 6; one_page [] 6; one_page [prod_B; prod_A] 7]
           world_A_missing).
  - simpl. apply NoDup_singleton.
  - vm_compute. reflexivity.
Defined.

Lemma last_total_is_highest_seen_witness :
  last_total_results (mem (world (main_loop ticking
    [one_page [prod_A] 9; offline; one_page [prod_A] 3] world_A_missing))) =
  fold_left Z.max
    (fetched_totals [one_page [prod_A] 9; offline; one_page [prod_A] 3])
    (last_total_results (mem world_A_missing)).
Proof.
  apply (last_total_is_highest_seen ticking
           [one_page [prod_A] 9; offline; one_page [prod_A] 3] world_A_missing).
  vm_compute. reflexivity.
Defined.
